(** * ActualVim, [view.py]: key translation, visual selections, the view
      registry, key presses and the command-line panel.

    The Python module is embedded shallowly.  Pure helpers ([keymap], the
    string methods it uses, [visual]) are functions; everything that touches
    the module global [_views], instance dictionaries, the host editor or the
    engine runs in a state-and-exception monad over an explicit [world]. *)

From Stdlib Require Import ZArith Ascii String.
From stdpp Require Import gmap strings list fin_maps.

Local Open Scope Z_scope.

(** ** Python values used by the module *)

(** A Python [str] is a sequence of code points. *)
Abbreviation str := (list Z).

(** [py "abc"] is the Python literal ['abc'] (ASCII only). *)
Definition py (s : string) : str :=
  (λ c, Z.of_nat (nat_of_ascii c)) <$> list_ascii_of_string s.

(** The exceptions that the modelled code can raise.  All of them are
    subclasses of [Exception]. *)
Inductive exn :=
| TypeError
| ValueError
| AttributeError
| IndexError
| RecursionError
| SystemError.

Global Instance exn_eq_dec : EqDecision exn.
Proof. solve_decision. Defined.

(** The outcome of evaluating an expression: a value or a raised exception. *)
Inductive result (A : Type) :=
| Ok (a : A)
| Raise (e : exn).
Global Arguments Ok {A} a.
Global Arguments Raise {A} e.

Global Instance result_ret : MRet result := λ A a, Ok a.
Global Instance result_bind : MBind result := λ A B f m,
  match m with
  | Ok a => f a
  | Raise e => Raise e
  end.


(** ** String built-ins *)

Module Str.

(** [c in s] for a one-character needle. *)
Definition contains (c : Z) (s : str) : bool := bool_decide (c ∈ s).

(** [ord(s)]: the code point of a one-character string. *)
Definition ord (s : str) : result Z :=
  match s with
  | [c] => Ok c
  | _ => Raise TypeError
  end.

(** [chr(n)]. *)
Definition chr (n : Z) : result str :=
  if bool_decide (0 ≤ n < 1114112) then Ok [n] else Raise ValueError.

(** [s.split(sep)] for a one-character separator. *)
Fixpoint split (sep : Z) (s : str) : list str :=
  match s with
  | [] => [[]]
  | c :: s' =>
      if bool_decide (c = sep) then [] :: split sep s'
      else match split sep s' with
           | hd :: rest => (c :: hd) :: rest
           | [] => [[c]]
           end
  end.

(** [s.rsplit(sep, 1)]: split once, at the last separator. *)
Fixpoint rsplit1 (sep : Z) (s : str) : list str :=
  match s with
  | [] => [[]]
  | c :: s' =>
      match rsplit1 sep s' with
      | [tl] => if bool_decide (c = sep) then [[]; tl] else [c :: tl]
      | hd :: rest => (c :: hd) :: rest
      | [] => [[c]]
      end
  end.

(** [sep.join(parts)]. *)
Fixpoint join (sep : str) (parts : list str) : str :=
  match parts with
  | [] => []
  | [p] => p
  | p :: rest => p ++ sep ++ join sep rest
  end.

(** Tuple unpacking [x, y = l]. *)
Definition unpack2 {A} (l : list A) : result (A * A) :=
  match l with
  | [x; y] => Ok (x, y)
  | _ => Raise ValueError
  end.

End Str.

(** ** Key translation *)

Definition plus_sign : Z := 43.

(** The table [KEYMAP]. *)
Definition KEYMAP : gmap str str :=
  list_to_map
    [ (py "backspace", [8]);
      (py "enter", [10]);
      (py "escape", [27]);
      (py "space", [32]);
      (py "tab", [9]);
      (py "up", 27 :: py "[A");
      (py "down", 27 :: py "[B");
      (py "right", 27 :: py "[C");
      (py "left", 27 :: py "[D") ].

(** [d.get(k, default)]. *)
Definition dict_get {K V} `{Countable K} (d : gmap K V) (k : K) (dflt : V) : V :=
  default dflt (d !! k).

Definition keymap (key : str) : result str :=
  if Str.contains plus_sign key && bool_decide (key ≠ py "+") then
    '(mods, key) ← Str.unpack2 (Str.rsplit1 plus_sign key);
    let mods := Str.split plus_sign mods in
    if bool_decide (mods = [py "ctrl"]) then
      b ← Str.ord key;
      if (b >=? 63) && (b <? 96) then
        Str.chr ((b - 64) `mod` 128)
      else Ok (dict_get KEYMAP key key)
    else Ok (dict_get KEYMAP key key)
  else Ok (dict_get KEYMAP key key).

(** ** The host editor's value types *)

Module sublime.

(** [sublime.Region(a, b)]: a possibly reversed pair of offsets. *)
Record Region := Region_new { a : Z; b : Z }.

(** [Region.begin()] and [Region.end()]. *)
Definition begin (r : Region) : Z := Z.min (a r) (b r).
Definition end_ (r : Region) : Z := Z.max (a r) (b r).

(** A [sublime.View] handle.  [id()] returns [view_id]; the host may give
    the id of a destroyed surface to a new one, so a handle also carries the
    live [surface] it denotes, and [==] on handles is equality of both. *)
Record View := View_new { view_id : Z; surface : nat }.

(** The three line-geometry queries of a view that [visual] uses. *)
Record Geometry := {
  text_point : Z → Z → Z;
  line : Z → Region;
  rowcol : Z → Z * Z
}.

End sublime.

Export sublime (Region, View).
Abbreviation Region_new := sublime.Region_new.
Abbreviation View_new := sublime.View_new.

Global Instance Region_eq_dec : EqDecision Region.
Proof. solve_decision. Defined.

Global Instance View_eq_dec : EqDecision View.
Proof. solve_decision. Defined.

Global Instance View_countable : Countable View.
Proof.
  refine (inj_countable' (λ v, (sublime.view_id v, sublime.surface v))
                         (λ p, View_new p.1 p.2) _).
  by intros [].
Defined.

(** ** Visual selections: [ViewMeta.visual] *)

(** [range(lo, hi)] over the integers. *)
Definition range (lo hi : Z) : list Z := seqZ lo (hi - lo).

(** The body of the [for] loop of block mode, as a function of the
    accumulated [regions] and the row [i]. *)
Definition visual_block_row (view : sublime.Geometry) (left right : Z)
    (regions : list (Z * Z)) (i : Z) : list (Z * Z) :=
  let line := sublime.line view (sublime.text_point view i 0) in
  let '(_, end_) := sublime.rowcol view (sublime.b line) in
  if left <=? end_ then
    let a := sublime.text_point view i left in
    let b := sublime.text_point view i (Z.min right end_) in
    regions ++ [(a, b)]
  else regions.

Definition visual (view : sublime.Geometry) (mode : str) (a b : Z * Z)
    : list Region :=
  let regions : list (Z * Z) := [] in
  let '(sr, sc) := a in
  let '(er, ec) := b in
  let a := sublime.text_point view sr sc in
  let b := sublime.text_point view er ec in
  let regions :=
    if bool_decide (mode = py "V") then
      let '(start, end_) :=
        if a >? b then
          (sublime.b (sublime.line view a), sublime.a (sublime.line view b))
        else
          (sublime.a (sublime.line view a), sublime.b (sublime.line view b)) in
      regions ++ [(start, end_)]
    else if bool_decide (mode = py "v") then
      let '(a, b) := if a >? b then (a + 1, b) else (a, b + 1) in
      regions ++ [(a, b)]
    else if bool_decide (mode = [22]) then
      let left := Z.min sc ec in
      let right := Z.max sc ec + 1 in
      let top := Z.min sr er in
      let bot := Z.max sr er in
      let end_ := sublime.text_point view top right in
      foldl (visual_block_row view left right) regions (range top (bot + 1))
    else regions ++ [(a, b)] in
  (λ r, Region_new r.1 r.2) <$> regions.

(** The block-mode rule in the words of the specification: every row from
    [top] to [bottom] whose end column is at least [left] contributes the
    range from [(r, left)] to [(r, min(right, end))]; the other rows are
    skipped. *)
Definition row_end (view : sublime.Geometry) (r : Z) : Z :=
  (sublime.rowcol view
     (sublime.b (sublime.line view (sublime.text_point view r 0)))).2.

Definition block_row_spec (view : sublime.Geometry) (left right r : Z) : list Region :=
  if bool_decide (left > row_end view r) then []
  else [Region_new (sublime.text_point view r left)
                   (sublime.text_point view r (Z.min right (row_end view r)))].

Definition block_spec (view : sublime.Geometry) (a b : Z * Z) : list Region :=
  let left := Z.min a.2 b.2 in
  let right := Z.max a.2 b.2 + 1 in
  let top := Z.min a.1 b.1 in
  let bottom := Z.max a.1 b.1 in
  r ← seqZ top (bottom - top + 1);
  block_row_spec view left right r.

(** The characters that a region covers, whatever its direction. *)
Definition extent (r : Region) : Z * Z := (sublime.begin r, sublime.end_ r).

(** *** A concrete geometry, for examples

    The geometry of a buffer whose rows have the lengths [lens], rows being
    separated by one newline character: row [r] starts after the [r] rows
    before it and their newlines, [line] returns the bounds of the row that
    contains an offset (the newline belongs to the row it ends), and [rowcol]
    is the inverse of [text_point] on offsets inside the buffer. *)
Module Buffer.

Fixpoint row_start (lens : list Z) (r : nat) : Z :=
  match r, lens with
  | O, _ => 0
  | S r', l :: ls => l + 1 + row_start ls r'
  | S _, [] => 0
  end.

Fixpoint row_of (lens : list Z) (p : Z) : nat :=
  match lens with
  | [] => O
  | [l] => O
  | l :: ls => if p <=? l then O else S (row_of ls (p - l - 1))
  end.

Definition text_point (lens : list Z) (row col : Z) : Z :=
  row_start lens (Z.to_nat row) + col.

Definition line (lens : list Z) (p : Z) : Region :=
  let r := row_of lens p in
  let start := row_start lens r in
  Region_new start (start + default 0 (lens !! r)).

Definition rowcol (lens : list Z) (p : Z) : Z * Z :=
  let r := row_of lens p in
  (Z.of_nat r, p - row_start lens r).

Definition geometry (lens : list Z) : sublime.Geometry :=
  {| sublime.text_point := text_point lens;
     sublime.line := line lens;
     sublime.rowcol := rowcol lens |}.

(** The geometry of a text: its rows are the parts between newlines. *)
Definition of_text (text : str) : sublime.Geometry :=
  geometry ((λ l : str, Z.of_nat (length l)) <$> Str.split 10 text).

End Buffer.

(** ** Objects, the host and the engine *)

Abbreviation loc := nat.

(** The Python values stored in instance attributes and view settings. *)
Inductive value :=
| VNone
| VBool (b : bool)
| VInt (n : Z)
| VView (v : View)
| VSel (s : list (Z * Z))
| VBuf (h : nat)
| VRef (l : loc).

Global Instance value_eq_dec : EqDecision value.
Proof. solve_decision. Defined.

(** Truth value of a Python value ([if x:]). *)
Definition truthy (v : value) : bool :=
  match v with
  | VNone => false
  | VBool b => b
  | VInt n => negb (n =? 0)
  | VSel s => negb (bool_decide (s = []))
  | VView _ | VBuf _ | VRef _ => true
  end.

(** A class object is identified by its name and by the generation of the
    module that defined it: reloading the module defines the class anew. *)
Abbreviation class_id := (string * nat)%type.

(** An instance: its class and its [__dict__]. *)
Record obj := Obj { __class__ : class_id; __dict__ : gmap string value }.

Global Instance obj_eq_dec : EqDecision obj.
Proof. solve_decision. Defined.

(** [d.update(other)]: the entries of [other] win. *)
Definition dict_update {V} (d other : gmap string V) : gmap string V := other ∪ d.

(** What the host holds for a surface. *)
Record hview := HView {
  text : str;
  sel : list Region;
  settings : gmap string value
}.

Definition hview0 : hview := HView [] [] ∅.

(** One step of an [Edit] transaction. *)
Inductive edit_step :=
| Replace (r : Region) (t : str).

Definition run_step (t : str) (s : edit_step) : str :=
  match s with
  | Replace r new =>
      take (Z.to_nat (sublime.begin r)) t ++ new ++ drop (Z.to_nat (sublime.end_ r)) t
  end.

Section Program.

(** The state of the engine behind [neo.vim]. *)
Context {Vim : Type}.

Record world := World {
  _views : gmap Z loc;              (* the module global [_views] *)
  heap : gmap loc obj;              (* the instances *)
  views : gmap View hview;          (* the host's surfaces *)
  panels : list View;               (* the open input panels *)
  next_panel : nat;                 (* the host's supply of panel surfaces *)
  edits : list (View * list edit_step);  (* committed [Edit] transactions *)
  deferred : list (loc * list Region);   (* selection writes not run yet *)
  stderr : list exn;                (* tracebacks printed *)
  vim : Vim
}.

Definition set__views (f : gmap Z loc → gmap Z loc) (w : world) : world :=
  World (f (_views w)) (heap w) (views w) (panels w) (next_panel w)
        (edits w) (deferred w) (stderr w) (vim w).
Definition set_heap (f : gmap loc obj → gmap loc obj) (w : world) : world :=
  World (_views w) (f (heap w)) (views w) (panels w) (next_panel w)
        (edits w) (deferred w) (stderr w) (vim w).
Definition set_views (f : gmap View hview → gmap View hview) (w : world) : world :=
  World (_views w) (heap w) (f (views w)) (panels w) (next_panel w)
        (edits w) (deferred w) (stderr w) (vim w).
Definition set_panels (f : list View → list View) (w : world) : world :=
  World (_views w) (heap w) (views w) (f (panels w)) (next_panel w)
        (edits w) (deferred w) (stderr w) (vim w).
Definition set_next_panel (f : nat → nat) (w : world) : world :=
  World (_views w) (heap w) (views w) (panels w) (f (next_panel w))
        (edits w) (deferred w) (stderr w) (vim w).
Definition set_edits (f : list (View * list edit_step) → list (View * list edit_step))
    (w : world) : world :=
  World (_views w) (heap w) (views w) (panels w) (next_panel w)
        (f (edits w)) (deferred w) (stderr w) (vim w).
Definition set_deferred (f : list (loc * list Region) → list (loc * list Region))
    (w : world) : world :=
  World (_views w) (heap w) (views w) (panels w) (next_panel w)
        (edits w) (f (deferred w)) (stderr w) (vim w).
Definition set_stderr (f : list exn → list exn) (w : world) : world :=
  World (_views w) (heap w) (views w) (panels w) (next_panel w)
        (edits w) (deferred w) (f (stderr w)) (vim w).
Definition set_vim (f : Vim → Vim) (w : world) : world :=
  World (_views w) (heap w) (views w) (panels w) (next_panel w)
        (edits w) (deferred w) (stderr w) (f (vim w)).

(** *** The monad of statements *)

Definition M (A : Type) : Type := world → result A * world.

Global Instance M_ret : MRet M := λ A a w, (Ok a, w).
Global Instance M_bind : MBind M := λ A B f m w,
  match m w with
  | (Ok a, w') => f a w'
  | (Raise e, w') => (Raise e, w')
  end.

Definition raise {A} (e : exn) : M A := λ w, (Raise e, w).
Definition gets {A} (f : world → A) : M A := λ w, (Ok (f w), w).
Definition modify (f : world → world) : M unit := λ w, (Ok (), f w).
Definition lift {A} (r : result A) : M A := λ w, (r, w).

(** [try: body / except Exception: handler]. *)
Definition try_except {A} (body : M A) (handler : exn → M A) : M A := λ w,
  match body w with
  | (Ok a, w') => (Ok a, w')
  | (Raise e, w') => handler e w'
  end.

(** [for x in xs: body x]. *)
Fixpoint for_each {A} (xs : list A) (body : A → M unit) : M unit :=
  match xs with
  | [] => mret ()
  | x :: xs' => body x;; for_each xs' body
  end.

(** *** Instances *)

(** [o.name]; an instance without the attribute raises [AttributeError].
    (A reference always denotes an instance: the [SystemError] case is not
    reachable from a well-formed world.) *)
Definition getattr (l : loc) (name : string) : M value := λ w,
  match heap w !! l with
  | None => (Raise SystemError, w)
  | Some o =>
      match __dict__ o !! name with
      | Some v => (Ok v, w)
      | None => (Raise AttributeError, w)
      end
  end.

(** [o.name = v]. *)
Definition setattr (l : loc) (name : string) (v : value) : M unit := λ w,
  match heap w !! l with
  | None => (Raise SystemError, w)
  | Some o =>
      (Ok (), set_heap <[l := Obj (__class__ o) (<[name := v]> (__dict__ o))]> w)
  end.

(** [o.__dict__] and [o.__dict__.update(d)]. *)
Definition get_dict (l : loc) : M (gmap string value) := λ w,
  match heap w !! l with
  | None => (Raise SystemError, w)
  | Some o => (Ok (__dict__ o), w)
  end.

Definition update_dict (l : loc) (d : gmap string value) : M unit := λ w,
  match heap w !! l with
  | None => (Raise SystemError, w)
  | Some o =>
      (Ok (), set_heap <[l := Obj (__class__ o) (dict_update (__dict__ o) d)]> w)
  end.

(** [cls.__new__(cls)]: a blank instance of the class, at a new address. *)
Definition __new__ (cls : class_id) : M loc := λ w,
  let l := fresh (dom (heap w)) in
  (Ok l, set_heap <[l := Obj cls ∅]> w).

(** *** The host's surfaces *)

Definition hview_of (w : world) (v : View) : hview := default hview0 (views w !! v).

Definition view_id (v : View) : M Z := mret (sublime.view_id v).

(** The host changes what it holds for a surface. *)
Definition update_hview (v : View) (f : hview → hview) (w : world) : world :=
  set_views (λ vs, <[v := f (default hview0 (vs !! v))]> vs) w.

(** [view.settings().get(k)] and [view.settings().set(k, x)]. *)
Definition settings_get (v : View) (k : string) : M value :=
  gets (λ w, default VNone (settings (hview_of w v) !! k)).

Definition settings_set (v : View) (k : string) (x : value) : M unit :=
  modify (update_hview v (λ h, HView (text h) (sel h) (<[k := x]> (settings h)))).

(** [view.size()], [view.substr(region)] and [view.sel()]. *)
Definition view_size (v : View) : M Z :=
  gets (λ w, Z.of_nat (length (text (hview_of w v)))).

Definition view_substr (v : View) (r : Region) : M str :=
  gets (λ w,
    let t := text (hview_of w v) in
    drop (Z.to_nat (sublime.begin r)) (take (Z.to_nat (sublime.end_ r)) t)).

Definition view_sel (v : View) : M (list Region) :=
  gets (λ w, sel (hview_of w v)).

End Program.

Global Arguments world : clear implicits.
Global Arguments M : clear implicits.

(** ** Classes and the registry *)

Section Registry.

Context {Vim : Type}.

(** A class object, as far as [cls(view)] and [cls.__new__(cls)] need it:
    its identity and its [__init__]. *)
Record class := Class {
  cls_id : class_id;
  cls_init : loc → View → M Vim unit
}.

(** [cls(view)]. *)
Definition construct (cls : class) (view : View) : M Vim loc :=
  self ← __new__ (cls_id cls);
  cls_init cls self view;;
  mret self.

(** [traceback.print_exc()]. *)
Definition print_exc (e : exn) : M Vim unit :=
  modify (set_stderr (λ out, out ++ [e])).

(** [ViewMeta.__init__]. *)
Definition ViewMeta_init (self : loc) (view : View) : M Vim unit :=
  setattr self "view" (VView view);;
  setattr self "last_sel" VNone.

(** [ActualVim.__init__]. *)
Definition ActualVim_init (self : loc) (view : View) : M Vim unit :=
  ViewMeta_init self view;;
  proxy ← settings_get view "actual_proxy";
  if truthy proxy then mret ()
  else
    let s := [("actual_intercept", VBool true);
              ("actual_mode", VBool true);
              ("inverse_caret_state", VBool true)] in
    for_each s (λ kv, settings_set view kv.1 kv.2);;
    setattr self "buf" VNone.

(** The two classes, as the module defines them when it is loaded for the
    [gen]-th time. *)
Definition ViewMeta (gen : nat) : class := Class ("ViewMeta"%string, gen) ViewMeta_init.
Definition ActualVim (gen : nat) : class := Class ("ActualVim"%string, gen) ActualVim_init.

(** [ViewMeta.get], a class method: [cls] is the class it is called on. *)
Definition get (cls : class) (view : View) (create exact : bool)
    : M Vim (option loc) :=
  vid ← view_id view;
  m ← gets (λ w, _views w !! vid);
  if negb (bool_decide (is_Some m)) && create then
    r ← try_except (m ← construct cls view; mret (Some m))
                   (λ e, print_exc e;; mret None);
    match r with
    | None => mret None
    | Some m => modify (set__views <[vid := m]>);; mret (Some m)
    end
  else
    stale ← match m with
            | Some l =>
                if exact then
                  mview ← getattr l "view";
                  mret (bool_decide (mview ≠ VView view))
                else mret false
            | None => mret false
            end;
    if stale : bool then mret None else mret m.

(** The body of the loop of [reload_classes], for the item [(vid, view)]. *)
Definition reload_classes_body (cls : class) (item : Z * loc) : M Vim unit :=
  let '(vid, view) := item in
  new ← __new__ (cls_id cls);
  let nd : gmap string value := ∅ in
  d ← get_dict view;
  let nd := dict_update nd d in
  d ← get_dict new;
  let nd := dict_update nd d in
  update_dict new nd;;
  modify (set__views <[vid := new]>).

(** [ActualVim.reload_classes], a class method. *)
Definition reload_classes (cls : class) : M Vim unit :=
  items ← gets (λ w, map_to_list (_views w));
  for_each items (reload_classes_body cls).

(** A world is well formed when every registered reference denotes an
    instance. *)
Definition wf (w : world Vim) : Prop :=
  ∀ vid l, _views w !! vid = Some l → is_Some (heap w !! l).

(** The attribute [name] of the instance at [l], if any. *)
Definition attr (w : world Vim) (l : loc) (name : string) : option value :=
  o ← heap w !! l; __dict__ o !! name.

(** An [__init__] that succeeds on any instance, records the view in the
    attribute [view] and leaves the registry alone. *)
Definition init_records_view (cls : class) : Prop :=
  ∀ l view w, is_Some (heap w !! l) →
    ∃ w', cls_init cls l view w = (Ok (), w') ∧
          _views w' = _views w ∧
          attr w' l "view" = Some (VView view).

(** The fields that the definition [cls] gives a new instance for [view]:
    the [__dict__] of [cls(view)]. *)
Definition defaults (cls : class) (view : View) (w : world Vim) : gmap string value :=
  match construct cls view w with
  | (Ok l, w') => default ∅ (__dict__ <$> heap w' !! l)
  | (Raise _, _) => ∅
  end.

End Registry.

Global Arguments class : clear implicits.

(** ** The bridge: [ActualVim] *)

(** The module [neo] is not part of [view.py]; its calls are taken as
    parameters over the engine's state.  Reads ([mode], [sel], [buf[:]]) do
    not change the engine. *)
Record Neo (Vim : Type) := {
  buf_new : Vim → nat * Vim;                   (* [neo.vim.buf_new()] *)
  buf_set : nat → list str → Vim → Vim;        (* [buf[:] = lines] *)
  buf_get : nat → Vim → list str;              (* [buf[:]] *)
  buf_activate : nat → Vim → Vim;              (* [neo.vim.buf_activate(buf)] *)
  vim_press : str → Vim → Vim;                 (* [neo.vim.press(key)] *)
  vim_mode : Vim → str;                        (* [neo.vim.mode] *)
  vim_sel : Vim → (Z * Z) * (Z * Z);           (* [neo.vim.sel] *)
  vim_select : option (Z * Z) → Z * Z → Vim → Vim;
                               (* [select(b)] is [vim_select None b],
                                  [select(a, b)] is [vim_select (Some a) b] *)
  INSERT_MODES : list str;
  VISUAL_MODES : list str
}.
Global Arguments buf_new {Vim}.
Global Arguments buf_set {Vim}.
Global Arguments buf_get {Vim}.
Global Arguments buf_activate {Vim}.
Global Arguments vim_press {Vim}.
Global Arguments vim_mode {Vim}.
Global Arguments vim_sel {Vim}.
Global Arguments vim_select {Vim}.
Global Arguments INSERT_MODES {Vim}.
Global Arguments VISUAL_MODES {Vim}.

Section Bridge.

Context {Vim : Type} (neo : Neo Vim).

(** The line geometry that the host answers with for a surface holding a
    given text. *)
Context (geom : str → sublime.Geometry).

(** Using a value as a view, or as an engine buffer: [None] has none of
    their methods. *)
Definition as_view (x : value) : M Vim View :=
  match x with
  | VView v => mret v
  | _ => raise AttributeError
  end.

Definition as_buf (x : value) : M Vim nat :=
  match x with
  | VBuf h => mret h
  | _ => raise TypeError
  end.

Definition geometry_of (view : View) : M Vim sublime.Geometry :=
  gets (λ w, geom (text (hview_of w view))).

(** Modelled from the spec: [Edit] of [edit.py], which is not part of
    [view.py].  [with Edit(view) as edit: ...] is a single scoped edit
    transaction, an all-or-nothing text mutation: the steps recorded in the
    block are applied to the text of the surface together when the block is
    left, and the transaction is logged. *)
Definition Edit_with (view : View) (steps : list edit_step) : M Vim unit :=
  modify (λ w,
    set_edits (λ log, log ++ [(view, steps)])
      (update_hview view
         (λ h, HView (foldl run_step (text h) steps) (sel h) (settings h)) w)).

(** Modelled from the spec: [Edit.defer(view, select)] of [edit.py] puts
    the selection write off until the current handler has returned.  The
    closure [select] is recorded by what it captures: [self] and
    [new_sel]. *)
Definition Edit_defer (self : loc) (new_sel : list Region) : M Vim unit :=
  modify (set_deferred (λ q, q ++ [(self, new_sel)])).

(** [neo.vim.buf_new()]. *)
Definition vim_buf_new : M Vim nat := λ w,
  let '(h, e) := buf_new neo (vim w) in
  (Ok h, set_vim (λ _, e) w).

(** [copy_sel(sel)], on a view or on a selection. *)
Definition copy_sel (sel : View + list Region) : M Vim (list (Z * Z)) :=
  sel ← match sel with
        | inl view => view_sel view
        | inr sel => mret sel
        end;
  mret ((λ r, (sublime.a r, sublime.b r)) <$> sel).

(** [ViewMeta.sel_changed]. *)
Definition sel_changed (self : loc) : M Vim bool :=
  view ← getattr self "view";
  new_sel ← match view with
            | VView view => copy_sel (inl view)
            | _ => raise TypeError   (* [None] cannot be iterated *)
            end;
  last_sel ← getattr self "last_sel";
  let changed := bool_decide (VSel new_sel ≠ last_sel) in
  setattr self "last_sel" (VSel new_sel);;
  mret changed.

(** [ActualVim.update_caret]. *)
Definition update_caret (self : loc) : M Vim unit :=
  mode ← gets (λ w, vim_mode neo (vim w));
  let wide := negb (bool_decide (mode ∈ INSERT_MODES neo ++ VISUAL_MODES neo)) in
  view ← getattr self "view" ≫= as_view;
  settings_set view "inverse_caret_state" (VBool wide).

(** [ActualVim.sel_from_vim], called without an [edit]. *)
Definition sel_from_vim (self : loc) : M Vim unit :=
  ab ← gets (λ w, vim_sel neo (vim w));
  mode ← gets (λ w, vim_mode neo (vim w));
  view ← getattr self "view" ≫= as_view;
  g ← geometry_of view;
  let new_sel := visual g mode ab.1 ab.2 in
  Edit_defer self new_sel.

(** [ActualVim.sel_to_vim]; [activate] is the method it calls first. *)
Definition sel_to_vim_with (activate : loc → M Vim unit) (self : loc) : M Vim unit :=
  activate self;;
  changed ← sel_changed self;
  if changed : bool then
    view ← getattr self "view" ≫= as_view;
    s ← view_sel view;
    sel ← match s with
          | r :: _ => mret r
          | [] => raise IndexError
          end;
    g ← geometry_of view;
    let b := sublime.rowcol g (sublime.b sel) in
    (if bool_decide (sublime.b sel = sublime.a sel) then
       modify (set_vim (vim_select neo None b))
     else
       let a := sublime.rowcol g (sublime.a sel) in
       modify (set_vim (vim_select neo (Some a) b)));;
    sel_from_vim self;;
    update_caret self
  else mret ().

(** [ActualVim.activate].  [activate] and [sel_to_vim] call each other;
    [depth] bounds the depth of the calls, as the interpreter does. *)
Fixpoint activate (depth : nat) (self : loc) : M Vim unit :=
  match depth with
  | O => raise RecursionError
  | S depth =>
      buf ← getattr self "buf";
      (if bool_decide (buf = VNone) then
         b ← vim_buf_new;
         setattr self "buf" (VBuf b);;
         view ← getattr self "view" ≫= as_view;
         size ← view_size view;
         t ← view_substr view (Region_new 0 size);
         buf ← getattr self "buf" ≫= as_buf;
         modify (set_vim (buf_set neo buf (Str.split 10 t)));;
         sel_to_vim_with (activate depth) self
       else mret ());;
      buf ← getattr self "buf" ≫= as_buf;
      modify (set_vim (buf_activate neo buf))
  end.

Definition sel_to_vim (depth : nat) (self : loc) : M Vim unit :=
  sel_to_vim_with (activate depth) self.

(** [ActualVim.press]. *)
Definition press (depth : nat) (self : loc) (key : str) : M Vim unit :=
  activate depth self;;
  buf ← getattr self "buf";
  if bool_decide (buf = VNone) then mret ()
  else
    k ← lift (keymap key);
    modify (set_vim (vim_press neo k));;
    buf ← getattr self "buf" ≫= as_buf;
    lines ← gets (λ w, buf_get neo buf (vim w));
    let text := Str.join [10] lines in
    view ← getattr self "view" ≫= as_view;
    size ← view_size view;
    let everything := Region_new 0 size in
    current ← view_substr view everything;
    (if bool_decide (current ≠ text) then
       Edit_with view [Replace everything text]
     else mret ());;
    sel_from_vim self;;
    update_caret self.

(** ** The command-line panel: [ActualPanel] *)

(** [ActualPanel.__init__]. *)
Definition ActualPanel_init (self actual : loc) : M Vim unit :=
  setattr self "actual" (VRef actual);;
  v ← getattr actual "vim";
  setattr self "vim" v;;
  v ← getattr actual "view";
  setattr self "view" v;;
  setattr self "panel" VNone.

(** What the host does to its open input panels when it opens the panel
    [p]: it may keep the open ones or put some away.  The host is not part of
    [view.py]. *)
Context (open_panel : list View → View → list View).

(** [window.show_input_panel(caption, initial, ...)]: the host opens an
    input widget on a new surface and returns its view. *)
Definition show_input_panel (caption initial : str) : M Vim View := λ w,
  let p := View_new (Z.of_nat (next_panel w)) (next_panel w) in
  (Ok p, set_next_panel S
           (set_panels (λ ps, open_panel ps p)
              (update_hview p (λ _, HView initial [] ∅) w))).

(** [panel.close()] on the host. *)
Definition panel_close (p : View) : M Vim unit :=
  modify (set_panels (filter (λ q, q ≠ p))).

(** [ActualPanel.close]. *)
Definition ActualPanel_close (self : loc) : M Vim unit :=
  panel ← getattr self "panel";
  if truthy panel then
    p ← as_view panel;
    panel_close p
  else mret ().

(** [ActualPanel.show].  The view is taken to be in a window, and the
    callbacks handed to the host are not kept.  The class [ActualVim] of this
    module has no attribute [views] (the registry is the module global
    [_views]), so the last statement raises once [self.actual] has been
    evaluated. *)
Definition ActualPanel_show (self : loc) (char : str) : M Vim unit :=
  view ← getattr self "view" ≫= as_view;
  p ← show_input_panel (py "Vim") char;
  setattr self "panel" (VView p);;
  panel ← getattr self "panel" ≫= as_view;
  settings_set panel "actual_intercept" (VBool true);;
  view ← getattr self "view" ≫= as_view;
  vid ← view_id view;
  settings_set panel "actual_proxy" (VInt vid);;
  actual ← getattr self "actual";
  raise AttributeError.

End Bridge.

(** What the bookkeeping of the bridge leaves alone from [w] to [w']: the
    log of edit transactions, the text and the selection of every surface,
    the [view] of every instance, the presence of [last_sel] and an engine
    buffer once it is set. *)
Definition stable {Vim} (w w' : world Vim) : Prop :=
  edits w' = edits w ∧
  (∀ v, text (hview_of w' v) = text (hview_of w v)) ∧
  (∀ v, sel (hview_of w' v) = sel (hview_of w v)) ∧
  (∀ l, attr w' l "view" = attr w l "view") ∧
  (∀ l, is_Some (attr w l "last_sel") → is_Some (attr w' l "last_sel")) ∧
  (∀ l h, attr w l "buf" = Some (VBuf h) → attr w' l "buf" = Some (VBuf h)).

(** The instance at [self] is a bridge for [view], as [ActualVim.__init__]
    leaves it or as [activate] does. *)
Definition bridge_of {Vim} (w : world Vim) (self : loc) (view : View) : Prop :=
  attr w self "view" = Some (VView view) ∧
  is_Some (attr w self "last_sel") ∧
  (attr w self "buf" = Some VNone ∨ ∃ h, attr w self "buf" = Some (VBuf h)).

(** ** Sample data *)

Module Sample.

(** A small modal engine.  In mode [n] the key [i] enters mode [i] and the
    other keys do nothing; in mode [i] the key [ESC] returns to mode [n] and
    any other key is appended to the first line of the current buffer. *)
Record toy := Toy {
  toy_bufs : list (list str);
  toy_cur : nat;
  toy_mode : str;
  toy_sel : (Z * Z) * (Z * Z)
}.

Definition toy_type (k : str) (lines : list str) : list str :=
  match lines with
  | [] => [k]
  | l :: ls => (l ++ k) :: ls
  end.

Definition toy_press (k : str) (e : toy) : toy :=
  if bool_decide (toy_mode e = py "n") then
    if bool_decide (k = py "i")
    then Toy (toy_bufs e) (toy_cur e) (py "i") (toy_sel e)
    else e
  else if bool_decide (k = [27])
    then Toy (toy_bufs e) (toy_cur e) (py "n") (toy_sel e)
    else Toy (alter (toy_type k) (toy_cur e) (toy_bufs e)) (toy_cur e)
             (toy_mode e) (toy_sel e).

Definition toy_neo : Neo toy := {|
  buf_new e := (length (toy_bufs e),
                Toy (toy_bufs e ++ [[]]) (toy_cur e) (toy_mode e) (toy_sel e));
  buf_set h ls e := Toy (<[h := ls]> (toy_bufs e)) (toy_cur e) (toy_mode e) (toy_sel e);
  buf_get h e := default [] (toy_bufs e !! h);
  buf_activate h e := Toy (toy_bufs e) h (toy_mode e) (toy_sel e);
  vim_press := toy_press;
  vim_mode := toy_mode;
  vim_sel := toy_sel;
  vim_select a b e := Toy (toy_bufs e) (toy_cur e) (toy_mode e) (default b a, b);
  INSERT_MODES := [py "i"; py "R"];
  VISUAL_MODES := [py "V"; py "v"; [22]]
|}.

Definition toy0 (mode : str) : toy := Toy [] 0 mode ((0, 0), (0, 0)).

(** Two handles with the same id: the surface of [v1] was destroyed and
    its id given to the surface of [v1']. *)
Definition v1 : View := View_new 1 1.
Definition v1' : View := View_new 1 2.
Definition v7 : View := View_new 7 7.

(** An empty world. *)
Definition w_empty : world toy :=
  World ∅ ∅ ∅ [] 100 [] [] [] (toy0 (py "n")).

(** A registry whose entry for id 1 was made for [v1]. *)
Definition w_stale : world toy :=
  World {[ 1 := 0%nat ]}
        {[ 0%nat := Obj ("ActualVim"%string, 0%nat)
                      {[ "view"%string := VView v1;
                         "last_sel"%string := VNone;
                         "buf"%string := VNone ]} ]}
        ∅ [] 100 [] [] [] (toy0 (py "n")).

(** A registry entry made by an earlier definition of the class, whose
    instances had no [buf]. *)
Definition w_old : world toy :=
  World {[ 7 := 0%nat ]}
        {[ 0%nat := Obj ("ActualVim"%string, 0%nat)
                      {[ "view"%string := VView v7;
                         "last_sel"%string := VSel [(3, 3)] ]} ]}
        ∅ [] 100 [] [] [] (toy0 (py "n")).

(** A bridge for [v1], not activated yet, on a surface holding [ab] with
    the caret at offset 2; the engine is in insert or in normal mode. *)
Definition w_bridge (mode : str) : world toy :=
  World {[ 1 := 0%nat ]}
        {[ 0%nat := Obj ("ActualVim"%string, 0%nat)
                      {[ "view"%string := VView v1;
                         "last_sel"%string := VNone;
                         "buf"%string := VNone ]} ]}
        {[ v1 := HView (py "ab") [Region_new 2 2] ∅ ]}
        [] 100 [] [] [] (toy0 mode).

(** Two hosts: one keeps the open panels when it opens another, one puts
    them away. *)
Definition keep_panels (ps : list View) (p : View) : list View := ps ++ [p].
Definition replace_panels (ps : list View) (p : View) : list View := [p].

(** A panel adapter at address 1 for [v1] whose panel [p0] is open. *)
Definition p0 : View := View_new 50 50.
Definition w_panel : world toy :=
  World ∅
        {[ 1%nat := Obj ("ActualPanel"%string, 0%nat)
                      {[ "actual"%string := VRef 0%nat;
                         "vim"%string := VRef 0%nat;
                         "view"%string := VView v1;
                         "panel"%string := VView p0 ]} ]}
        {[ p0 := HView (py ":") [] ∅ ]}
        [p0] 100 [] [] [] (toy0 (py "n")).

End Sample.

(** ** The end of a bridge: [ActualVim.close] *)

Section Lifecycle.

Context {Vim : Type}.

(** [neo.vim.buf_close(buf)], a parameter like the calls of [Neo]. *)
Context (buf_close : nat → Vim → Vim).

(** [ActualVim.close]. *)
Definition ActualVim_close (self : loc) : M Vim unit :=
  buf ← getattr self "buf";
  if bool_decide (buf ≠ VNone) then
    buf ← getattr self "buf" ≫= as_buf;
    modify (set_vim (buf_close buf))
  else mret ().

End Lifecycle.

(** ** More sample data *)

Module Cases.

(** A class whose [__init__] fails. *)
Definition Broken : class Sample.toy :=
  Class ("Broken"%string, 0%nat) (λ _ _, raise TypeError).

(** Closing a buffer of the toy engine empties it. *)
Definition toy_close (h : nat) (e : Sample.toy) : Sample.toy :=
  Sample.Toy (<[h := []]> (Sample.toy_bufs e)) (Sample.toy_cur e)
             (Sample.toy_mode e) (Sample.toy_sel e).

(** A surface that is the proxy of another one. *)
Definition w_proxy : world Sample.toy :=
  World ∅ ∅
        {[ Sample.v1 := HView [] [] {[ "actual_proxy"%string := VInt 7 ]} ]}
        [] 100 [] [] [] (Sample.toy0 (py "n")).

(** A bridge for [v1] that is activated: the engine buffer 0 mirrors the
    text [ab], and the selection was pushed to the engine. *)
Definition w_active (mode : str) : world Sample.toy :=
  World {[ 1 := 0%nat ]}
        {[ 0%nat := Obj ("ActualVim"%string, 0%nat)
                      {[ "view"%string := VView Sample.v1;
                         "last_sel"%string := VSel [(2, 2)];
                         "buf"%string := VBuf 0 ]} ]}
        {[ Sample.v1 := HView (py "ab") [Region_new 2 2] ∅ ]}
        [] 100 [] [] []
        (Sample.Toy [[py "ab"]] 0 mode ((0, 2), (0, 2))).

(** The same bridge on a surface that has lost its selection. *)
Definition w_no_sel : world Sample.toy :=
  World {[ 1 := 0%nat ]}
        {[ 0%nat := Obj ("ActualVim"%string, 0%nat)
                      {[ "view"%string := VView Sample.v1;
                         "last_sel"%string := VSel [(2, 2)];
                         "buf"%string := VBuf 0 ]} ]}
        {[ Sample.v1 := HView (py "ab") [] ∅ ]}
        [] 100 [] [] []
        (Sample.Toy [[py "ab"]] 0 (py "n") ((0, 2), (0, 2))).

End Cases.

(** * Properties *)

(** ** Key translation *)

(** *** The string built-ins *)

Lemma split_nonempty (sep : Z) (s : str) : Str.split sep s ≠ [].
Proof.
  destruct s as [|c s]; simpl; [done|].
  case_bool_decide; [done|]. by destruct (Str.split sep s).
Qed.

Lemma split_no_sep (sep : Z) (s : str) : sep ∉ s → Str.split sep s = [s].
Proof.
  induction s as [|c s IH]; simpl; [done|].
  intros [Hc Hs]%not_elem_of_cons.
  rewrite bool_decide_eq_false_2 by done. by rewrite IH.
Qed.

Lemma split_singleton (sep : Z) (s x : str) :
  Str.split sep s = [x] → x = s ∧ sep ∉ s.
Proof.
  revert x. induction s as [|c s IH]; simpl; intros x.
  - intros [= <-]. split; [done|]. apply not_elem_of_nil.
  - case_bool_decide as Hc.
    + intros [= _ Hs]. by destruct (split_nonempty sep s).
    + destruct (Str.split sep s) as [|hd rest] eqn:E.
      * by destruct (split_nonempty sep s).
      * intros [= <- ->]. destruct (IH hd eq_refl) as [-> Hs].
        split; [done|]. apply not_elem_of_cons. by split.
Qed.

Lemma rsplit1_no_sep (sep : Z) (s : str) : sep ∉ s → Str.rsplit1 sep s = [s].
Proof.
  induction s as [|c s IH]; simpl; [done|].
  intros [Hc Hs]%not_elem_of_cons.
  rewrite IH by done. by rewrite bool_decide_eq_false_2.
Qed.

Lemma rsplit1_app (sep : Z) (hd tl : str) :
  sep ∉ tl → Str.rsplit1 sep (hd ++ sep :: tl) = [hd; tl].
Proof.
  intros Htl. induction hd as [|c hd IH]; simpl.
  - rewrite rsplit1_no_sep by done. by rewrite bool_decide_eq_true_2.
  - by rewrite IH.
Qed.

(** Where there is a separator, [rsplit] cuts at the last one. *)
Lemma rsplit1_sep (sep : Z) (s : str) :
  sep ∈ s →
  ∃ hd tl, s = hd ++ sep :: tl ∧ (sep ∉ tl) ∧ Str.rsplit1 sep s = [hd; tl].
Proof.
  induction s as [|c s IH]; [by intros ?%elem_of_nil|].
  intros Hin. destruct (decide (sep ∈ s)) as [Hs|Hs].
  - destruct (IH Hs) as (hd & tl & -> & Htl & E).
    exists (c :: hd), tl. split_and!; [done..|]. simpl. by rewrite E.
  - apply elem_of_cons in Hin as [->|]; [|done].
    exists [], s. split_and!; [done..|]. by apply (rsplit1_app c []).
Qed.

(** The unpacking [mods, key = key.rsplit('+', 1)] cannot fail under the
    guard ['+' in key]. *)
Lemma rsplit1_unpack (sep : Z) (s : str) :
  sep ∈ s → ∃ hd tl, Str.unpack2 (Str.rsplit1 sep s) = Ok (hd, tl).
Proof.
  intros (hd & tl & _ & _ & ->)%rsplit1_sep. by exists hd, tl.
Qed.

Lemma chr_control (b : Z) : Str.chr ((b - 64) `mod` 128) = Ok [(b - 64) `mod` 128].
Proof.
  unfold Str.chr. rewrite bool_decide_eq_true_2; [done|].
  pose proof (Z.mod_pos_bound (b - 64) 128). lia.
Qed.

(** *** [keymap] *)

Example keymap_enter : keymap (py "enter") = Ok [10].
Proof. vm_compute. reflexivity. Qed.

Example keymap_plus : keymap (py "+") = Ok (py "+").
Proof. vm_compute. reflexivity. Qed.

Example keymap_ctrl_a : keymap (py "ctrl+A") = Ok [1].
Proof. vm_compute. reflexivity. Qed.

Example keymap_ctrl_question : keymap (py "ctrl+?") = Ok [127].
Proof. vm_compute. reflexivity. Qed.

Example keymap_shift_up : keymap (py "shift+up") = Ok (27 :: py "[A").
Proof. vm_compute. reflexivity. Qed.

Example keymap_ctrl_empty : keymap (py "ctrl+") = Raise TypeError.
Proof. vm_compute. reflexivity. Qed.


(** What [keymap] does on [ctrl+base]. *)
Lemma keymap_ctrl (base : str) :
  plus_sign ∉ base →
  keymap (py "ctrl+" ++ base) =
    match base with
    | [b] => if (b >=? 63) && (b <? 96) then Ok [(b - 64) `mod` 128]
             else Ok (dict_get KEYMAP base base)
    | _ => Raise TypeError
    end.
Proof.
  intros Hb. unfold keymap, Str.contains.
  rewrite bool_decide_eq_true_2 by (apply elem_of_app; left; vm_compute; set_solver).
  rewrite bool_decide_eq_true_2 by (by destruct base).
  change (py "ctrl+" ++ base) with (py "ctrl" ++ plus_sign :: base).
  rewrite rsplit1_app by done. simpl.
  destruct base as [|b [|b' base]]; simpl; try done.
  destruct ((b >=? 63) && (b <? 96)); [|done]. apply chr_control.
Qed.


(** C1 (the code departs from the claim): on [ctrl+up], a chord whose
    modifier list is exactly [ctrl] and whose base is the named key [up],
    [keymap] raises [TypeError] from [ord] instead of returning a fallback
    value; the translator is not total. *)
Theorem keymap_ctrl_up_raises : keymap (py "ctrl+up") = Raise TypeError.
Proof. vm_compute. reflexivity. Qed.

(** ** Visual selections *)

Example ex_line : visual (Buffer.geometry [5; 3; 4]) (py "V") (2, 1) (0, 2)
                  = [Region_new 14 0].
Proof. vm_compute. reflexivity. Qed.

Example ex_line_forward : visual (Buffer.geometry [5; 3; 4]) (py "V") (0, 1) (2, 2)
                  = [Region_new 0 14].
Proof. vm_compute. reflexivity. Qed.

Example ex_block : visual (Buffer.geometry [8; 3; 1; 8]) [22] (0, 2) (3, 5)
                  = [Region_new 2 6; Region_new 11 12; Region_new 17 21].
Proof. vm_compute. reflexivity. Qed.

(** *** The sample geometry *)

Lemma row_start_nonneg (lens : list Z) (r : nat) :
  Forall (λ l, 0 ≤ l) lens → 0 ≤ Buffer.row_start lens r.
Proof.
  intros H. revert r. induction H as [|l ls Hl _ IH]; intros [|r]; simpl; try lia.
  specialize (IH r). lia.
Qed.

(** [rowcol] inverts [text_point] inside the buffer. *)
Lemma row_of_text_point (lens : list Z) (r : nat) (len c : Z) :
  Forall (λ l, 0 ≤ l) lens → lens !! r = Some len → 0 ≤ c ≤ len →
  Buffer.row_of lens (Buffer.row_start lens r + c) = r.
Proof.
  intros H. revert r. induction H as [|l ls Hl Hls IH]; intros r Hr Hc; [done|].
  destruct r as [|r]; simpl in *.
  - simplify_eq. destruct ls; [done|]. destruct (Z.leb_spec (0 + c) len); [done|lia].
  - destruct ls as [|l' ls']; [done|].
    pose proof (row_start_nonneg (l' :: ls') r Hls).
    destruct (Z.leb_spec (l + 1 + Buffer.row_start (l' :: ls') r + c) l); [lia|].
    f_equal. rewrite <- (IH r Hr Hc) at 2. f_equal. lia.
Qed.

(** *** Line mode *)

Lemma visual_line (g : sublime.Geometry) (anchor cursor : Z * Z) :
  let a := sublime.text_point g anchor.1 anchor.2 in
  let b := sublime.text_point g cursor.1 cursor.2 in
  visual g (py "V") anchor cursor =
    [if a >? b
     then Region_new (sublime.b (sublime.line g a)) (sublime.a (sublime.line g b))
     else Region_new (sublime.a (sublime.line g a)) (sublime.b (sublime.line g b))].
Proof.
  destruct anchor as [sr sc], cursor as [er ec]. simpl.
  by destruct (_ >? _).
Qed.

(** C3 (counterexample): with the anchor on row 2 and the cursor on row 0 of
    a buffer with rows of 5, 3 and 4 characters the anchor's offset is the
    greater one, and the range is not the one from the end of the cursor's line
    (5) to the start of the anchor's line (10). *)
Lemma visual_line_not_cursor_end_to_anchor_start :
  let g := Buffer.geometry [5; 3; 4] in
  let anchor := (2, 0) in
  let cursor := (0, 0) in
  let a := sublime.text_point g anchor.1 anchor.2 in
  let b := sublime.text_point g cursor.1 cursor.2 in
  a > b ∧
  visual g (py "V") anchor cursor ≠
    [Region_new (sublime.b (sublime.line g b)) (sublime.a (sublime.line g a))].
Proof. vm_compute. split; [done|]. intros [=]. Qed.

(** C3 (as amended): when the anchor's offset is greater than the cursor's,
    line mode emits exactly one range, and it runs from the end of the
    anchor's line to the start of the cursor's line.  With the anchor on row 2
    and the cursor on row 0 of a buffer, at any columns of these rows, it is
    the reversed range from the end of row 2 to the start of row 0, which
    covers the buffer from the start of row 0 to the end of row 2. *)
Theorem visual_line_anchor_after_cursor :
  (∀ (g : sublime.Geometry) (anchor cursor : Z * Z),
     let a := sublime.text_point g anchor.1 anchor.2 in
     let b := sublime.text_point g cursor.1 cursor.2 in
     a > b →
     visual g (py "V") anchor cursor =
       [Region_new (sublime.b (sublime.line g a)) (sublime.a (sublime.line g b))]) ∧
  (∀ (lens : list Z) (len0 len2 c0 c2 : Z),
     Forall (λ l, 0 ≤ l) lens →
     lens !! 0%nat = Some len0 → lens !! 2%nat = Some len2 →
     0 ≤ c0 ≤ len0 → 0 ≤ c2 ≤ len2 →
     let start0 := Buffer.row_start lens 0 in
     let end2 := Buffer.row_start lens 2 + len2 in
     visual (Buffer.geometry lens) (py "V") (2, c2) (0, c0) = [Region_new end2 start0] ∧
     extent (Region_new end2 start0) = (start0, end2)).
Proof.
  split.
  - intros g anchor cursor a b Hab. rewrite visual_line.
    fold a b. by rewrite (proj2 (Z.gtb_gt a b)) by lia.
  - intros lens len0 len2 c0 c2 Hlens H0 H2 Hc0 Hc2 start0 end2.
    rewrite visual_line. simpl.
    unfold Buffer.text_point, Buffer.line.
    change (Z.to_nat 2) with 2%nat. change (Z.to_nat 0) with 0%nat.
    rewrite (row_of_text_point lens 2 len2 c2), (row_of_text_point lens 0 len0 c0) by done.
    rewrite H0, H2. simpl.
    subst start0 end2.
    destruct lens as [|l0 [|l1 [|l2 ls]]]; simplify_eq/=.
    rewrite !Forall_cons in Hlens. destruct Hlens as (? & ? & ? & _).
    rewrite (proj2 (Z.gtb_gt _ _)) by lia.
    split; [done|].
    unfold extent, sublime.begin, sublime.end_. simpl. f_equal; lia.
Qed.

Lemma visual_line_anchor_after_cursor_witness :
  let g := Buffer.geometry [5; 3; 4] in
  sublime.text_point g 2 1 > sublime.text_point g 0 2 ∧
  visual g (py "V") (2, 1) (0, 2) = [Region_new 14 0].
Proof.
  split; [by vm_compute|].
  apply (proj1 visual_line_anchor_after_cursor (Buffer.geometry [5; 3; 4]) (2, 1) (0, 2)).
  by vm_compute.
Defined.

(** *** Char mode *)

Lemma visual_char (g : sublime.Geometry) (anchor cursor : Z * Z) :
  let a := sublime.text_point g anchor.1 anchor.2 in
  let b := sublime.text_point g cursor.1 cursor.2 in
  visual g (py "v") anchor cursor =
    [if a >? b then Region_new (a + 1) b else Region_new a (b + 1)].
Proof.
  destruct anchor as [sr sc], cursor as [er ec]. simpl.
  by destruct (_ >? _).
Qed.

(** C4 (counterexample): on a 5-character line, the anchor at column 2 and
    the cursor at column 0 do not yield the range (0, 3). *)
Lemma char_swapped_is_not_0_3 :
  visual (Buffer.geometry [5]) (py "v") (0, 2) (0, 0) ≠ [Region_new 0 3].
Proof. vm_compute. intros [=]. Qed.

(** C4 (as amended): on a 5-character line, anchor (0,0) and cursor (0,2)
    yield the range (0, 3); anchor (0,2) and cursor (0,0) yield the reversed
    range (3, 0), which covers the same characters; and in general swapping
    the anchor and the cursor leaves the covered characters unchanged, since
    the +1 goes to whichever endpoint is the far one. *)
Theorem visual_char_swap :
  visual (Buffer.geometry [5]) (py "v") (0, 0) (0, 2) = [Region_new 0 3] ∧
  visual (Buffer.geometry [5]) (py "v") (0, 2) (0, 0) = [Region_new 3 0] ∧
  ∀ (g : sublime.Geometry) (anchor cursor : Z * Z),
    extent <$> visual g (py "v") anchor cursor =
    extent <$> visual g (py "v") cursor anchor.
Proof.
  split_and!; [by vm_compute..|].
  intros g anchor cursor. rewrite !visual_char. simpl.
  set (a := sublime.text_point g anchor.1 anchor.2).
  set (b := sublime.text_point g cursor.1 cursor.2).
  f_equal. unfold extent, sublime.begin, sublime.end_.
  destruct (a >? b) eqn:Hab, (b >? a) eqn:Hba; simpl; f_equal; lia.
Qed.

(** *** Block mode *)

Lemma visual_block_row_spec (g : sublime.Geometry) (left right : Z)
    (regions : list (Z * Z)) (i : Z) :
  (λ r, Region_new r.1 r.2) <$> visual_block_row g left right regions i =
  ((λ r, Region_new r.1 r.2) <$> regions) ++ block_row_spec g left right i.
Proof.
  unfold visual_block_row, block_row_spec, row_end.
  destruct (sublime.rowcol g _) as [row end_]. simpl.
  destruct (Z.leb_spec left end_).
  - rewrite bool_decide_eq_false_2 by lia. by rewrite fmap_app.
  - rewrite bool_decide_eq_true_2 by lia. by rewrite app_nil_r.
Qed.

Lemma visual_block_rows_spec (g : sublime.Geometry) (left right : Z)
    (rows : list Z) (regions : list (Z * Z)) :
  (λ r, Region_new r.1 r.2) <$> foldl (visual_block_row g left right) regions rows =
  ((λ r, Region_new r.1 r.2) <$> regions) ++ (rows ≫= block_row_spec g left right).
Proof.
  revert regions. induction rows as [|i rows IH]; intros regions; simpl.
  - by rewrite app_nil_r.
  - by rewrite IH, visual_block_row_spec, <- app_assoc.
Qed.

(** C5: in block mode the resolver emits what the rule says: with
    [left] the smaller column and [right] the larger column plus one, each
    row from the top row to the bottom row is skipped when [left] exceeds its
    end column and otherwise contributes the one range from [(r, left)] to
    [(r, min(right, end))].  Hence, for a block over columns 2 to 5, a row
    whose end column is below 2 contributes nothing and a 3-character row
    contributes the range clamped to column 3. *)
Theorem visual_block_refines_spec (g : sublime.Geometry) (a b : Z * Z) :
  visual g [22] a b = block_spec g a b ∧
  (∀ r, row_end g r < 2 → block_row_spec g 2 (5 + 1) r = []) ∧
  (∀ r, row_end g r = 3 →
     block_row_spec g 2 (5 + 1) r =
       [Region_new (sublime.text_point g r 2) (sublime.text_point g r 3)]).
Proof.
  split_and!.
  - destruct a as [sr sc], b as [er ec].
    unfold block_spec, range. simpl.
    rewrite visual_block_rows_spec. simpl.
    unfold range. do 2 f_equal. lia.
  - intros r Hr. unfold block_row_spec. by rewrite bool_decide_eq_true_2 by lia.
  - intros r Hr. unfold block_row_spec. rewrite Hr.
    by rewrite bool_decide_eq_false_2 by lia.
Qed.

Lemma visual_block_refines_spec_witness :
  let g := Buffer.geometry [8; 3; 1; 8] in
  (row_end g 2 < 2 ∧ row_end g 1 = 3) ∧
  visual g [22] (0, 2) (3, 5) = [Region_new 2 6; Region_new 11 12; Region_new 17 21] ∧
  block_row_spec g 2 (5 + 1) 2 = [] ∧
  block_row_spec g 2 (5 + 1) 1 = [Region_new 11 12].
Proof.
  pose proof (visual_block_refines_spec (Buffer.geometry [8; 3; 1; 8]) (0, 2) (3, 5))
    as (Hvis & Hskip & Hclamp).
  split_and!.
  - by vm_compute.
  - by vm_compute.
  - rewrite Hvis. by vm_compute.
  - apply Hskip. by vm_compute.
  - rewrite Hclamp; [done|]. by vm_compute.
Defined.

(** ** The registry *)

(** Unfolding the monad. *)
Ltac run :=
  unfold mbind, M_bind, mret, M_ret, gets, modify, raise, lift, try_except,
    view_id; simpl.

Section RegistryFacts.

Context {Vim : Type}.
Implicit Types (w : world Vim) (cls : class Vim) (view : View) (l : loc).

Lemma bind_run {A B} (m : M Vim A) (f : A → M Vim B) w a w1 :
  m w = (Ok a, w1) → (m ≫= f) w = f a w1.
Proof. intros H. unfold mbind, M_bind. by rewrite H. Qed.

Lemma bind_raise {A B} (m : M Vim A) (f : A → M Vim B) w e w1 :
  m w = (Raise e, w1) → (m ≫= f) w = (Raise e, w1).
Proof. intros H. unfold mbind, M_bind. by rewrite H. Qed.

(** *** Lookups that find an entry or find none *)

Lemma get_absent cls view exact w :
  _views w !! sublime.view_id view = None →
  get cls view false exact w = (Ok None, w).
Proof. intros H. unfold get. run. by rewrite H. Qed.

Lemma get_inexact cls view create w l :
  _views w !! sublime.view_id view = Some l →
  get cls view create false w = (Ok (Some l), w).
Proof.
  intros H. unfold get. run. rewrite H.
  by rewrite bool_decide_eq_true_2 by done.
Qed.

Lemma get_exact cls view create w l x :
  _views w !! sublime.view_id view = Some l →
  attr w l "view" = Some x →
  get cls view create true w =
    (Ok (if bool_decide (x ≠ VView view) then None else Some l), w).
Proof.
  intros H Hx. unfold get. run. rewrite H.
  rewrite bool_decide_eq_true_2 by done. simpl.
  unfold attr in Hx. unfold getattr.
  destruct (heap w !! l) as [o|]; [|done]. simpl in Hx. rewrite Hx.
  by case_bool_decide.
Qed.

(** *** Construction *)

Lemma ViewMeta_init_run l view w o :
  heap w !! l = Some o →
  ViewMeta_init l view w =
    (Ok (), set_heap <[l := Obj (__class__ o)
                         (<["last_sel" := VNone]> (<["view" := VView view]> (__dict__ o)))]> w).
Proof.
  intros H. unfold ViewMeta_init, setattr. run. rewrite H. simpl.
  rewrite lookup_insert_eq. simpl. unfold set_heap. simpl.
  by rewrite insert_insert_eq.
Qed.

Lemma ViewMeta_records_view gen : init_records_view (ViewMeta (Vim := Vim) gen).
Proof.
  intros l view w [o Ho]. simpl. rewrite (ViewMeta_init_run _ _ _ _ Ho).
  eexists. split_and!; [done..|].
  unfold attr. simpl. rewrite lookup_insert_eq. simpl.
  by rewrite lookup_insert_ne, lookup_insert_eq.
Qed.

Lemma for_each_settings_set view (s : list (string * value)) w :
  ∃ w', for_each s (λ kv, settings_set view kv.1 kv.2) w = (Ok (), w') ∧
        _views w' = _views w ∧ heap w' = heap w.
Proof.
  revert w. induction s as [|kv s IH]; intros w; simpl.
  - by exists w.
  - erewrite bind_run by reflexivity.
    match goal with
    | |- ∃ w', for_each _ _ ?w1 = _ ∧ _ => destruct (IH w1) as (w' & Hrun & Hv & Hh)
    end.
    exists w'. by rewrite Hrun, Hv, Hh.
Qed.

Lemma ActualVim_records_view gen : init_records_view (ActualVim (Vim := Vim) gen).
Proof.
  intros l view w [o Ho]. simpl. unfold ActualVim_init.
  erewrite bind_run by (by apply ViewMeta_init_run).
  set (w1 := set_heap _ w).
  assert (attr w1 l "view" = Some (VView view)) as Hview.
  { unfold attr. simpl. rewrite lookup_insert_eq. simpl.
    by rewrite lookup_insert_ne, lookup_insert_eq. }
  erewrite bind_run by reflexivity.
  destruct (truthy _).
  - by exists w1.
  - edestruct (for_each_settings_set view) as (w2 & Hrun & Hv & Hh).
    erewrite bind_run by apply Hrun.
    unfold attr in Hview. rewrite <- Hh in Hview.
    unfold setattr. destruct (heap w2 !! l) as [o2|] eqn:Ho2; [|done].
    eexists. split_and!; [done|simpl; by rewrite Hv|].
    unfold attr. simpl. rewrite lookup_insert_eq. simpl.
    by rewrite lookup_insert_ne.
Qed.

Lemma source_classes_record_view gen cls :
  cls = ViewMeta gen ∨ cls = ActualVim gen → init_records_view cls.
Proof.
  intros [->| ->]; [apply ViewMeta_records_view|apply ActualVim_records_view].
Qed.

(** A lookup that finds no entry and may create one constructs an instance
    at a new address and registers it. *)
Lemma get_create cls view exact w :
  init_records_view cls →
  _views w !! sublime.view_id view = None →
  ∃ l w', get cls view true exact w = (Ok (Some l), w') ∧
          heap w !! l = None ∧
          _views w' !! sublime.view_id view = Some l ∧
          attr w' l "view" = Some (VView view).
Proof.
  intros Hcls H. unfold get, construct, __new__. run. rewrite H. simpl.
  set (l := fresh (dom (heap w))).
  set (w1 := set_heap _ w).
  destruct (Hcls l view w1) as (w2 & -> & Hviews & Hview).
  { subst w1. simpl. rewrite lookup_insert_eq. by eexists. }
  simpl. exists l. eexists. split_and!; [done| | |].
  - apply not_elem_of_dom. apply is_fresh.
  - simpl. by rewrite lookup_insert_eq.
  - done.
Qed.

(** Two lookups in a row for the same surface. *)
Lemma get_twice cls view exact w :
  init_records_view cls →
  (_views w !! sublime.view_id view = None ∨
   ∃ l, _views w !! sublime.view_id view = Some l ∧
        attr w l "view" = Some (VView view)) →
  ∃ l w1, get cls view true exact w = (Ok (Some l), w1) ∧
          get cls view true exact w1 = (Ok (Some l), w1).
Proof.
  intros Hcls [H|(l & H & Hview)].
  - destruct (get_create cls view exact w Hcls H) as (l & w1 & -> & _ & H1 & Hview).
    exists l, w1. split; [done|]. destruct exact.
    + rewrite (get_exact _ _ _ _ _ _ H1 Hview).
      by rewrite bool_decide_eq_false_2 by (by intros []).
    + by apply get_inexact.
  - exists l, w. destruct exact.
    + rewrite (get_exact _ _ _ _ _ _ H Hview).
      by rewrite bool_decide_eq_false_2 by (by intros []).
    + by rewrite (get_inexact _ _ _ _ _ H).
Qed.

(** C7 (as amended): when the entry under the id records another surface
    than the one asked for, a lookup with [create] and [exact] returns nothing
    and changes nothing: no instance is constructed and the stale entry stays
    registered; without [exact] the stale instance itself is returned. *)
Theorem get_stale_entry cls view w l x :
  _views w !! sublime.view_id view = Some l →
  attr w l "view" = Some x → x ≠ VView view →
  get cls view true true w = (Ok None, w) ∧
  get cls view true false w = (Ok (Some l), w).
Proof.
  intros H Hx Hne. split.
  - rewrite (get_exact _ _ _ _ _ _ H Hx). by rewrite bool_decide_eq_true_2.
  - by apply get_inexact.
Qed.

(** C10: without [exact] the lookup does not look at the surface that the
    stored instance records: whenever the id is registered, the stored
    instance is returned and nothing changes. *)
Theorem get_inexact_returns_stored cls view create w l :
  _views w !! sublime.view_id view = Some l →
  get cls view create false w = (Ok (Some l), w).
Proof. apply get_inexact. Qed.

(** *** Reloading the classes *)

(** One entry: a blank instance of the class at a new address takes the
    fields of the old instance and replaces it in the registry. *)
Lemma reload_classes_body_run cls vid l o w :
  heap w !! l = Some o →
  let new := fresh (dom (heap w)) in
  reload_classes_body cls (vid, l) w =
    (Ok (), set__views <[vid := new]>
              (set_heap <[new := Obj (cls_id cls) (__dict__ o)]> w)).
Proof.
  intros Ho new. unfold reload_classes_body.
  assert (heap w !! new = None) as Hnew by apply not_elem_of_dom, is_fresh.
  assert (new ≠ l) as Hne by congruence.
  erewrite bind_run by reflexivity. fold new.
  erewrite bind_run; last first.
  { unfold get_dict. simpl. by rewrite lookup_insert_ne, Ho. }
  erewrite bind_run; last first.
  { unfold get_dict. simpl. by rewrite lookup_insert_eq. }
  erewrite bind_run; last first.
  { unfold update_dict. simpl. by rewrite lookup_insert_eq. }
  unfold modify, set__views, set_heap, dict_update. simpl.
  rewrite insert_insert_eq.
  by rewrite !(left_id_L ∅ (∪)), !(right_id_L ∅ (∪)).
Qed.

Lemma reload_classes_loop cls (items : list (Z * loc)) w :
  NoDup items.*1 →
  (∀ vid l, (vid, l) ∈ items → is_Some (heap w !! l)) →
  ∃ w', for_each items (reload_classes_body cls) w = (Ok (), w') ∧
        heap w ⊆ heap w' ∧
        (∀ vid, vid ∉ items.*1 → _views w' !! vid = _views w !! vid) ∧
        (∀ vid l, (vid, l) ∈ items →
           ∃ l' o, heap w !! l = Some o ∧
                   _views w' !! vid = Some l' ∧
                   heap w !! l' = None ∧
                   heap w' !! l' = Some (Obj (cls_id cls) (__dict__ o))).
Proof.
  revert w. induction items as [|[vid l] items IH]; intros w Hnd Hheap.
  - exists w. split_and!; [done..|]. by intros ?? ?%elem_of_nil.
  - apply NoDup_cons in Hnd as [Hvid Hnd].
    destruct (Hheap vid l) as [o Ho]; [by left|].
    simpl. erewrite bind_run by (by apply reload_classes_body_run).
    set (new := fresh (dom (heap w))).
    assert (heap w !! new = None) as Hnew by apply not_elem_of_dom, is_fresh.
    set (w1 := set__views _ _).
    assert (heap w ⊆ heap w1) as Hsub by (by apply insert_subseteq).
    destruct (IH w1 Hnd) as (w' & Hrun & Hsub' & Hother & Hitems).
    { intros vid' l' Hin. destruct (Hheap vid' l') as [o' Ho']; [by right|].
      exists o'. by eapply lookup_weaken. }
    exists w'. split_and!; [done|by etrans| |].
    + intros vid' [Hne Hnin]%not_elem_of_cons.
      rewrite Hother by done. simpl. by rewrite lookup_insert_ne.
    + intros vid' l' [[= -> ->]|Hin]%elem_of_cons.
      * exists new, o. split_and!; [done| |done|].
        -- rewrite Hother by done. simpl. by rewrite lookup_insert_eq.
        -- eapply lookup_weaken; [|done]. simpl. by rewrite lookup_insert_eq.
      * destruct (Hitems vid' l' Hin) as (l'' & o' & Ho' & Hv & Hfresh & Hnewobj).
        destruct (Hheap vid' l') as [o'' Ho'']; [by right|].
        exists l'', o''. split_and!; [done|done| |].
        -- destruct (heap w !! l'') eqn:E; [|done].
           eapply lookup_weaken in E; [|done]. congruence.
        -- eapply lookup_weaken in Ho''; [|done]. congruence.
Qed.

(** C2 (as amended): reloading transplants every entry of the registry: the
    registry keeps its ids, every old instance stays as it was, and each id
    now holds an instance of the new class at a new address whose fields are
    exactly the fields of the old instance with their values.  (The blank
    instance of the new class has no fields of its own, and [__init__] is not
    run, so nothing is laid over the old fields.) *)
Theorem reload_classes_migrates cls w :
  wf w →
  ∃ w', reload_classes cls w = (Ok (), w') ∧
        (∀ vid, is_Some (_views w' !! vid) ↔ is_Some (_views w !! vid)) ∧
        heap w ⊆ heap w' ∧
        (∀ vid l o, _views w !! vid = Some l → heap w !! l = Some o →
           ∃ l', _views w' !! vid = Some l' ∧
                 heap w !! l' = None ∧
                 heap w' !! l' = Some (Obj (cls_id cls) (__dict__ o))).
Proof.
  intros Hwf. unfold reload_classes.
  erewrite bind_run by reflexivity.
  destruct (reload_classes_loop cls (map_to_list (_views w)) w)
    as (w' & Hrun & Hsub & Hother & Hitems).
  { apply NoDup_fst_map_to_list. }
  { intros vid l Hin%elem_of_map_to_list. by eapply Hwf. }
  exists w'. split_and!; [done| |done|].
  - intros vid. destruct (_views w !! vid) as [l|] eqn:E.
    + apply elem_of_map_to_list in E.
      destruct (Hitems vid l E) as (l' & o & _ & -> & _). by split.
    + rewrite Hother, E; [done|].
      intros ((vid' & l) & -> & Hin%elem_of_map_to_list)%list_elem_of_fmap.
      simpl in E. congruence.
  - intros vid l o Hv Ho. apply elem_of_map_to_list in Hv.
    destruct (Hitems vid l Hv) as (l' & o' & Ho' & ? & ? & ?).
    exists l'. by simplify_eq.
Qed.

End RegistryFacts.


(** ** The bridge *)

Section BridgeFacts.

Context {Vim : Type} (neo : Neo Vim) (geom : str → sublime.Geometry).
Implicit Types (w : world Vim) (view : View) (l self : loc).

(** *** Reading and writing the world *)

Lemma getattr_run l name x w :
  attr w l name = Some x → getattr l name w = (Ok x, w).
Proof.
  unfold attr, getattr. destruct (heap w !! l) as [o|]; [|done].
  simpl. by intros ->.
Qed.

Lemma setattr_run l name x o w :
  heap w !! l = Some o →
  setattr l name x w =
    (Ok (), set_heap <[l := Obj (__class__ o) (<[name := x]> (__dict__ o))]> w).
Proof. unfold setattr. by intros ->. Qed.

Lemma attr_heap w l name : is_Some (attr w l name) → is_Some (heap w !! l).
Proof.
  unfold attr. destruct (heap w !! l); [by eexists|]. by intros [? ?].
Qed.

Lemma attr_set_heap w l l' o name :
  attr (set_heap <[l := o]> w) l' name =
    if decide (l = l') then __dict__ o !! name else attr w l' name.
Proof.
  unfold attr. simpl. case_decide as H.
  - subst. by rewrite lookup_insert_eq.
  - by rewrite lookup_insert_ne.
Qed.

Lemma hview_of_update_hview w v v' f :
  hview_of (update_hview v f w) v' =
    if decide (v = v') then f (hview_of w v) else hview_of w v'.
Proof.
  unfold hview_of, update_hview. simpl. case_decide as H.
  - subst. by rewrite lookup_insert_eq.
  - by rewrite lookup_insert_ne.
Qed.

Lemma hview_of_set_edits w f v : hview_of (set_edits f w) v = hview_of w v.
Proof. done. Qed.

(** *** [stable] *)

Lemma stable_refl w : stable w w.
Proof. by unfold stable. Qed.

Lemma stable_trans w1 w2 w3 : stable w1 w2 → stable w2 w3 → stable w1 w3.
Proof.
  intros (He & Ht & Hs & Hv & Hl & Hb) (He' & Ht' & Hs' & Hv' & Hl' & Hb').
  unfold stable. split_and!.
  - by rewrite He'.
  - intros v. by rewrite Ht'.
  - intros v. by rewrite Hs'.
  - intros l. by rewrite Hv'.
  - intros l H. by apply Hl', Hl.
  - intros l h H. by apply Hb', Hb.
Qed.

Lemma stable_setattr w l o name x :
  heap w !! l = Some o →
  name = "last_sel"%string ∨
  (name = "buf"%string ∧ ∀ h, __dict__ o !! "buf" ≠ Some (VBuf h)) →
  stable w (set_heap <[l := Obj (__class__ o) (<[name := x]> (__dict__ o))]> w).
Proof.
  intros Ho Hname. unfold stable. split_and!; try done.
  - intros l'. rewrite attr_set_heap. case_decide; [subst|done].
    unfold attr. rewrite Ho. simpl.
    by destruct Hname as [->|[-> _]]; rewrite lookup_insert_ne.
  - intros l'. rewrite attr_set_heap. case_decide; [subst|done].
    unfold attr. rewrite Ho. simpl.
    destruct Hname as [->|[-> _]]; [by rewrite lookup_insert_eq|].
    by rewrite lookup_insert_ne.
  - intros l' h. rewrite attr_set_heap. case_decide; [subst|done].
    unfold attr. rewrite Ho. simpl.
    destruct Hname as [->|[-> Hbuf]]; [by rewrite lookup_insert_ne|].
    intros H. by destruct (Hbuf h).
Qed.

Lemma stable_update_settings w v f :
  (∀ h, text (f h) = text h) → (∀ h, sel (f h) = sel h) →
  stable w (update_hview v f w).
Proof.
  intros Ht Hs. unfold stable. split_and!; try done.
  - intros v'. rewrite hview_of_update_hview. by case_decide; subst.
  - intros v'. rewrite hview_of_update_hview. by case_decide; subst.
Qed.

Lemma stable_set_vim w f : stable w (set_vim f w).
Proof. by unfold stable. Qed.

Lemma stable_set_deferred w f : stable w (set_deferred f w).
Proof. by unfold stable. Qed.

(** *** The methods of the bridge *)

Lemma self_view_run self view w :
  attr w self "view" = Some (VView view) →
  (getattr self "view" ≫= as_view) w = (Ok view, w).
Proof. intros H. by erewrite bind_run by (by apply getattr_run). Qed.

Lemma update_caret_ok self view w :
  attr w self "view" = Some (VView view) →
  ∃ w', update_caret neo self w = (Ok (), w') ∧ stable w w' ∧ vim w' = vim w.
Proof.
  intros Hview. unfold update_caret.
  erewrite bind_run by reflexivity.
  erewrite bind_run by (by apply self_view_run).
  eexists. split_and!; [done| |done].
  by apply stable_update_settings.
Qed.

Lemma sel_from_vim_ok self view w :
  attr w self "view" = Some (VView view) →
  ∃ w', sel_from_vim neo geom self w = (Ok (), w') ∧ stable w w' ∧ vim w' = vim w.
Proof.
  intros Hview. unfold sel_from_vim.
  do 2 erewrite bind_run by reflexivity.
  erewrite bind_run by (by apply self_view_run).
  erewrite bind_run by reflexivity.
  eexists. split_and!; [done| |done].
  apply stable_set_deferred.
Qed.

Lemma sel_changed_ok self view w :
  attr w self "view" = Some (VView view) →
  is_Some (attr w self "last_sel") →
  ∃ changed w', sel_changed self w = (Ok changed, w') ∧ stable w w' ∧ vim w' = vim w.
Proof.
  intros Hview [last Hlast]. unfold sel_changed.
  destruct (attr_heap w self "last_sel") as [o Ho]; [by eexists|].
  erewrite bind_run by (by apply getattr_run).
  erewrite bind_run by reflexivity.
  erewrite bind_run by (by apply getattr_run).
  erewrite bind_run by (by apply setattr_run).
  do 2 eexists. split_and!; [done| |done].
  apply stable_setattr; auto.
Qed.

Lemma sel_to_vim_with_ok (act : loc → M Vim unit) self view w :
  (∃ w1, act self w = (Ok (), w1) ∧ stable w w1) →
  attr w self "view" = Some (VView view) →
  is_Some (attr w self "last_sel") →
  sel (hview_of w view) ≠ [] →
  ∃ w', sel_to_vim_with neo geom act self w = (Ok (), w') ∧ stable w w'.
Proof.
  intros (w1 & Hact & Hst1) Hview Hlast Hsel. unfold sel_to_vim_with.
  erewrite bind_run by apply Hact.
  pose proof Hst1 as (_ & _ & Hs1 & Hv1 & Hl1 & _).
  destruct (sel_changed_ok self view w1) as (changed & w2 & Hch & Hst2 & _);
    [by rewrite Hv1|by apply Hl1|].
  erewrite bind_run by apply Hch.
  assert (stable w w2) as Hst by (by eapply stable_trans).
  destruct changed; [|by exists w2].
  pose proof Hst as (_ & _ & Hs & Hv & _).
  erewrite bind_run by (apply self_view_run; by rewrite Hv).
  erewrite bind_run by reflexivity. rewrite Hs.
  destruct (sel (hview_of w view)) as [|r rest]; [done|].
  do 2 erewrite bind_run by reflexivity.
  set (g := geom _).
  assert (∃ w3, (if bool_decide (sublime.b r = sublime.a r)
                 then modify (set_vim (vim_select neo None (sublime.rowcol g (sublime.b r))))
                 else modify (set_vim (vim_select neo
                        (Some (sublime.rowcol g (sublime.a r)))
                        (sublime.rowcol g (sublime.b r))))) w2 = (Ok (), w3) ∧
               stable w2 w3) as (w3 & Hsel3 & Hst3).
  { destruct (bool_decide _); eexists; (split; [done|apply stable_set_vim]). }
  erewrite bind_run by apply Hsel3.
  pose proof Hst3 as (_ & _ & _ & Hv3 & _).
  destruct (sel_from_vim_ok self view w3) as (w4 & Hrun4 & Hst4 & _);
    [by rewrite Hv3, Hv|].
  erewrite bind_run by apply Hrun4.
  pose proof Hst4 as (_ & _ & _ & Hv4 & _).
  destruct (update_caret_ok self view w4) as (w5 & Hrun5 & Hst5 & _);
    [by rewrite Hv4, Hv3, Hv|].
  exists w5. split; [done|].
  eauto using stable_trans.
Qed.

(** Activating a bridge that has its engine buffer only gives the buffer the
    focus of the engine. *)
Lemma activate_active depth self h w :
  attr w self "buf" = Some (VBuf h) →
  activate neo geom (S depth) self w = (Ok (), set_vim (buf_activate neo h) w).
Proof.
  intros Hbuf. cbn [activate].
  erewrite bind_run by (by apply getattr_run).
  rewrite bool_decide_eq_false_2 by done.
  erewrite bind_run by reflexivity.
  erewrite bind_run; [done|].
  by erewrite bind_run by (by apply getattr_run).
Qed.

(** Activation succeeds at depth 2 and beyond, and leaves the bridge with an
    engine buffer. *)
Lemma activate_ok depth self view w :
  bridge_of w self view →
  (attr w self "buf" = Some VNone → sel (hview_of w view) ≠ []) →
  ∃ h w', activate neo geom (S (S depth)) self w = (Ok (), w') ∧
          stable w w' ∧
          attr w' self "buf" = Some (VBuf h).
Proof.
  intros (Hview & Hlast & [Hbuf|[h Hbuf]]) Hsel.
  - specialize (Hsel Hbuf).
    destruct (attr_heap w self "buf") as [o Ho]; [by eexists|].
    cbn [activate].
    erewrite bind_run by (by apply getattr_run).
    rewrite bool_decide_eq_true_2 by done.
    destruct (buf_new neo (vim w)) as [h e] eqn:Enew.
    set (w1 := set_vim (λ _, e) w).
    set (w2 := set_heap <[self := Obj (__class__ o) (<["buf" := VBuf h]> (__dict__ o))]> w1).
    assert (stable w w2) as Hst2.
    { eapply stable_trans; [apply (stable_set_vim w (λ _, e))|].
      apply stable_setattr; [done|]. right. split; [done|].
      intros h'. unfold attr in Hbuf. rewrite Ho in Hbuf. simpl in Hbuf.
      by rewrite Hbuf. }
    assert (attr w2 self "buf" = Some (VBuf h)) as Hbuf2.
    { subst w2. rewrite attr_set_heap, decide_True by done. simpl.
      by rewrite lookup_insert_eq. }
    pose proof Hst2 as (_ & _ & Hs2 & Hv2 & Hl2 & _).
    set (t := text (hview_of w2 view)).
    set (w3 := set_vim (buf_set neo h (Str.split 10
                 (drop (Z.to_nat (sublime.begin (Region_new 0 (Z.of_nat (length t)))))
                    (take (Z.to_nat (sublime.end_ (Region_new 0 (Z.of_nat (length t))))) t)))) w2).
    assert (stable w2 w3) as Hst3 by apply stable_set_vim.
    destruct (sel_to_vim_with_ok (activate neo geom (S depth)) self view w3)
      as (w4 & Hrun4 & Hst4).
    { eexists. split; [by apply activate_active|]. apply stable_set_vim. }
    { change (attr w2 self "view" = Some (VView view)). by rewrite Hv2. }
    { change (is_Some (attr w2 self "last_sel")). by apply Hl2. }
    { change (sel (hview_of w2 view) ≠ []). by rewrite Hs2. }
    pose proof Hst4 as (_ & _ & _ & _ & _ & Hb4).
    exists h. eexists. split_and!.
    + erewrite bind_run; last first.
      { erewrite bind_run; last by (unfold vim_buf_new; rewrite Enew).
        erewrite bind_run by (by apply setattr_run). fold w1 w2.
        erewrite bind_run by (apply self_view_run; by rewrite Hv2).
        do 2 erewrite bind_run by reflexivity.
        erewrite bind_run by (by erewrite bind_run by (by apply getattr_run)).
        erewrite bind_run by reflexivity.
        apply Hrun4. }
      erewrite bind_run; [done|].
      erewrite bind_run by (apply getattr_run; by apply Hb4). done.
    + eapply stable_trans; [|apply stable_set_vim].
      eauto using stable_trans.
    + by apply Hb4.
  - exists h. eexists. split_and!.
    + by apply activate_active.
    + apply stable_set_vim.
    + done.
Qed.

(** *** [press] *)

(** [view.substr(sublime.Region(0, view.size()))] is the whole text. *)
Lemma substr_everything (t : str) :
  let everything := Region_new 0 (Z.of_nat (length t)) in
  drop (Z.to_nat (sublime.begin everything))
       (take (Z.to_nat (sublime.end_ everything)) t) = t.
Proof.
  unfold sublime.begin, sublime.end_. simpl.
  rewrite Z.min_l, Z.max_r by lia. rewrite Nat2Z.id. simpl.
  by rewrite take_ge.
Qed.

(** Replacing everything by [new] leaves [new]. *)
Lemma replace_everything (t new : str) :
  run_step t (Replace (Region_new 0 (Z.of_nat (length t))) new) = new.
Proof.
  unfold run_step, sublime.begin, sublime.end_. simpl.
  rewrite Z.min_l, Z.max_r by lia. rewrite Nat2Z.id. simpl.
  by rewrite drop_all, app_nil_r.
Qed.

(** A key that [keymap] cannot translate stops [press] after the
    activation: the engine gets no key and the host no edit. *)
Lemma press_untranslatable depth self view key e w :
  bridge_of w self view →
  (attr w self "buf" = Some VNone → sel (hview_of w view) ≠ []) →
  keymap key = Raise e →
  ∃ w', press neo geom (S (S depth)) self key w = (Raise e, w') ∧ stable w w'.
Proof.
  intros Hbridge Hsel Hkey.
  destruct (activate_ok depth self view w Hbridge Hsel)
    as (h & w1 & Hact & Hst1 & Hbuf1).
  exists w1. split; [|done]. unfold press.
  erewrite bind_run by apply Hact.
  erewrite bind_run by (by apply getattr_run).
  rewrite bool_decide_eq_false_2 by done.
  by rewrite Hkey.
Qed.

(** C8: [press] on a bridge whose key translates to [k] activates the
    bridge (the surface must have a selection if this is the first
    activation), forwards [k] to the engine and returns; afterwards the text of the
    surface is the joined content of the engine buffer, and the log of edit
    transactions has grown by exactly one transaction, made of the single
    replacement of the full text by that content, if the two texts differed,
    and has not grown at all if they were equal.  No other surface changes
    its text. *)
Theorem press_replaces_text_iff_differs depth self view key k w :
  bridge_of w self view →
  (attr w self "buf" = Some VNone → sel (hview_of w view) ≠ []) →
  keymap key = Ok k →
  ∃ h e w',
    press neo geom (S (S depth)) self key w = (Ok (), w') ∧
    attr w' self "buf" = Some (VBuf h) ∧
    vim w' = vim_press neo k e ∧
    let old := text (hview_of w view) in
    let new := Str.join [10] (buf_get neo h (vim w')) in
    text (hview_of w' view) = new ∧
    (∀ v, v ≠ view → text (hview_of w' v) = text (hview_of w v)) ∧
    edits w' = edits w ++
      (if decide (old = new) then []
       else [(view, [Replace (Region_new 0 (Z.of_nat (length old))) new])]).
Proof.
  intros Hbridge Hsel Hkey.
  destruct (activate_ok depth self view w Hbridge Hsel)
    as (h & w1 & Hact & Hst1 & Hbuf1).
  destruct Hbridge as (Hview & _).
  pose proof Hst1 as (He1 & Ht1 & _ & Hv1 & _).
  set (w2 := set_vim (vim_press neo k) w1).
  set (new := Str.join [10] (buf_get neo h (vim w2))).
  set (old := text (hview_of w view)).
  set (everything := Region_new 0 (Z.of_nat (length old))).
  (* the text synchronisation *)
  assert (∃ w3,
    (if bool_decide (old ≠ new)
     then Edit_with view [Replace everything new]
     else mret ()) w2 = (Ok (), w3) ∧
    heap w3 = heap w2 ∧ vim w3 = vim w2 ∧
    text (hview_of w3 view) = new ∧
    (∀ v, v ≠ view → text (hview_of w3 v) = text (hview_of w v)) ∧
    edits w3 = edits w ++
      (if decide (old = new) then [] else [(view, [Replace everything new])]))
    as (w3 & Hsync & Hheap3 & Hvim3 & Htext3 & Hother3 & Hedits3).
  { case_bool_decide as Hdiff.
    - eexists. split; [done|]. split_and!; try done.
      + rewrite hview_of_set_edits, hview_of_update_hview, decide_True by done.
        simpl. change (text (hview_of w2 view)) with (text (hview_of w1 view)).
        rewrite Ht1. apply replace_everything.
      + intros v Hv.
        rewrite hview_of_set_edits, hview_of_update_hview, decide_False by done.
        apply Ht1.
      + simpl. by rewrite He1, decide_False.
    - exists w2. split; [done|]. split_and!; try done.
      + change (text (hview_of w1 view) = new). by rewrite Ht1.
      + intros v _. apply Ht1.
      + simpl. by rewrite He1, decide_True, app_nil_r. }
  assert (attr w2 self "view" = Some (VView view)) as Hview2.
  { change (attr w1 self "view" = Some (VView view)). by rewrite Hv1. }
  assert (attr w3 self "view" = Some (VView view)) as Hview3.
  { unfold attr. by rewrite Hheap3. }
  destruct (sel_from_vim_ok self view w3 Hview3) as (w4 & Hrun4 & Hst4 & Hvim4).
  pose proof Hst4 as (He4 & Ht4 & _ & Hv4 & _ & Hb4).
  destruct (update_caret_ok self view w4) as (w5 & Hrun5 & Hst5 & Hvim5);
    [by rewrite Hv4|].
  pose proof Hst5 as (He5 & Ht5 & _ & _ & _ & Hb5).
  assert (vim w5 = vim w2) as Hvim by congruence.
  exists h, (vim w1), w5. split_and!.
  - unfold press.
    erewrite bind_run by apply Hact.
    erewrite bind_run by (by apply getattr_run).
    rewrite bool_decide_eq_false_2 by done.
    rewrite Hkey.
    do 2 erewrite bind_run by reflexivity. fold w2.
    erewrite bind_run by (by erewrite bind_run by (by apply getattr_run)).
    erewrite bind_run by reflexivity. fold new.
    erewrite bind_run by (by apply (self_view_run self view)).
    do 2 erewrite bind_run by reflexivity.
    change (text (hview_of w2 view)) with (text (hview_of w1 view)).
    rewrite Ht1. cbv zeta. fold old.
    pose proof (substr_everything old) as Hsub. cbv zeta in Hsub. rewrite Hsub.
    fold everything.
    erewrite bind_run by apply Hsync.
    erewrite bind_run by apply Hrun4.
    apply Hrun5.
  - apply Hb5, Hb4. unfold attr. by rewrite Hheap3.
  - by rewrite Hvim.
  - simpl. rewrite Hvim. fold new old everything. split_and!.
    + by rewrite Ht5, Ht4.
    + intros v Hv. rewrite Ht5, Ht4. by apply Hother3.
    + by rewrite He5, He4.
Qed.

(** *** The panel adapter *)

(** [show] fails on its last statement. *)
Lemma ActualPanel_show_raises open_panel self view char w :
  attr w self "view" = Some (VView view) →
  ∃ w', ActualPanel_show open_panel self char w = (Raise AttributeError, w').
Proof.
  intros Hview. unfold ActualPanel_show.
  destruct (attr_heap w self "view") as [o Ho]; [by eexists|].
  erewrite bind_run by (by apply self_view_run).
  erewrite bind_run by reflexivity.
  erewrite bind_run by (by apply setattr_run).
  set (p := View_new _ _). set (w1 := set_heap _ _).
  assert (attr w1 self "panel" = Some (VView p)) as Hpanel.
  { subst w1. rewrite attr_set_heap, decide_True by done. simpl.
    by rewrite lookup_insert_eq. }
  assert (attr w1 self "view" = Some (VView view)) as Hview1.
  { subst w1. rewrite attr_set_heap, decide_True by done. simpl.
    rewrite lookup_insert_ne by done. unfold attr in Hview.
    by rewrite Ho in Hview. }
  erewrite bind_run by (by erewrite bind_run by (by apply getattr_run)).
  erewrite bind_run by reflexivity.
  erewrite bind_run by (by apply (self_view_run self view)).
  do 2 erewrite bind_run by reflexivity.
  set (w2 := update_hview _ _ _).
  destruct (attr w2 self "actual") as [x|] eqn:Hactual.
  - erewrite bind_run by (by apply getattr_run). by eexists.
  - erewrite bind_raise; [by eexists|].
    unfold getattr. unfold attr in Hactual.
    destruct (heap w2 !! self) as [o2|] eqn:Ho2; [simpl in Hactual; by rewrite Hactual|].
    subst w2 w1. simpl in Ho2. by rewrite lookup_insert_eq in Ho2.
Qed.

End BridgeFacts.

(** *** The registry on the sample worlds *)

(** C7 (counterexample): the entry for id 1 records the surface of [v1]; a
    lookup with [create] for [v1'], another surface with the same id, returns
    nothing and leaves the world as it was, so no instance bound to [v1'] is
    made. *)
Lemma get_stale_constructs_nothing :
  _views Sample.w_stale !! sublime.view_id Sample.v1' = Some 0%nat ∧
  attr Sample.w_stale 0%nat "view" = Some (VView Sample.v1) ∧
  Sample.v1 ≠ Sample.v1' ∧
  get (ActualVim 0) Sample.v1' true true Sample.w_stale = (Ok None, Sample.w_stale) ∧
  ¬ ∃ l w', get (ActualVim 0) Sample.v1' true true Sample.w_stale = (Ok (Some l), w') ∧
            attr w' l "view" = Some (VView Sample.v1').
Proof.
  assert (get (ActualVim 0) Sample.v1' true true Sample.w_stale
          = (Ok None, Sample.w_stale)) as Hget by (by vm_compute).
  split_and!; [by vm_compute..|done|].
  intros (l & w' & Hsome & _). rewrite Hget in Hsome. discriminate.
Qed.

Lemma get_stale_entry_witness :
  get (ActualVim 0) Sample.v1' true true Sample.w_stale = (Ok None, Sample.w_stale) ∧
  get (ActualVim 0) Sample.v1' true false Sample.w_stale = (Ok (Some 0%nat), Sample.w_stale).
Proof.
  apply (get_stale_entry (ActualVim 0) Sample.v1' Sample.w_stale 0%nat (VView Sample.v1));
    by vm_compute.
Defined.

(** With [exact=false] the caller gets the bridge of the destroyed surface
    [v1] for the surface [v1'] that took over its id. *)
Lemma get_inexact_returns_stored_witness :
  attr Sample.w_stale 0%nat "view" = Some (VView Sample.v1) ∧
  Sample.v1 ≠ Sample.v1' ∧
  get (ActualVim 0) Sample.v1' true false Sample.w_stale
    = (Ok (Some 0%nat), Sample.w_stale).
Proof.
  split_and!; [by vm_compute..|].
  apply (get_inexact_returns_stored (ActualVim 0) Sample.v1' true Sample.w_stale 0%nat).
  by vm_compute.
Defined.

Lemma w_old_wf : wf Sample.w_old.
Proof.
  intros vid l. unfold Sample.w_old. simpl.
  intros [<- <-]%lookup_singleton_Some. by rewrite lookup_singleton_eq.
Qed.

(** The selection snapshot [[(3, 3)]] survives the migration. *)
Lemma reload_classes_migrates_witness :
  ∃ w' l',
    reload_classes (ActualVim 1) Sample.w_old = (Ok (), w') ∧
    _views w' !! 7 = Some l' ∧
    (__class__ <$> heap w' !! l') = Some ("ActualVim"%string, 1%nat) ∧
    attr w' l' "last_sel" = Some (VSel [(3, 3)]).
Proof.
  destruct (reload_classes_migrates (ActualVim 1) Sample.w_old w_old_wf)
    as (w' & Hrun & _ & _ & Hentries).
  destruct (Hentries 7 0%nat
              (Obj ("ActualVim"%string, 0%nat)
                 {[ "view"%string := VView Sample.v7;
                    "last_sel"%string := VSel [(3, 3)] ]}))
    as (l' & Hl' & _ & Hobj); [by vm_compute..|].
  exists w', l'. split_and!; [done..| |].
  - by rewrite Hobj.
  - unfold attr. rewrite Hobj. by vm_compute.
Defined.

(** C2 (counterexample): the entry was made by an earlier definition whose
    instances had no [buf]; the new definition gives its instances
    [buf = None]; after the migration the entry still has no [buf]. *)
Lemma reload_classes_no_new_defaults :
  let w' := (reload_classes (ActualVim 1) Sample.w_old).2 in
  attr Sample.w_old 0%nat "buf" = None ∧
  defaults (ActualVim 1) Sample.v7 Sample.w_old !! "buf" = Some VNone ∧
  ∃ l', _views w' !! 7 = Some l' ∧
        (__class__ <$> heap w' !! l') = Some ("ActualVim"%string, 1%nat) ∧
        attr w' l' "buf" = None ∧
        attr w' l' "buf" ≠ defaults (ActualVim 1) Sample.v7 Sample.w_old !! "buf".
Proof.
  split_and!; [by vm_compute..|].
  exists 1%nat. split_and!; [by vm_compute..|].
  vm_compute. discriminate.
Qed.

(** *** The bridge on the sample worlds *)

Lemma w_bridge_bridge_of mode : bridge_of (Sample.w_bridge mode) 0%nat Sample.v1.
Proof.
  split_and!.
  - by vm_compute.
  - exists VNone. by vm_compute.
  - left. by vm_compute.
Qed.

(** In insert mode the key [x] is typed into the engine buffer; the texts
    differ and the surface takes the text of the engine in one transaction. *)
Example press_insert_x :
  let r := press Sample.toy_neo Buffer.of_text 2 0%nat (py "x") (Sample.w_bridge (py "i")) in
  r.1 = Ok () ∧
  text (hview_of r.2 Sample.v1) = py "abx" ∧
  edits r.2 = [(Sample.v1, [Replace (Region_new 0 2) (py "abx")])].
Proof. by vm_compute. Qed.

(** In normal mode the key [x] changes nothing in the toy engine; the texts
    are equal and the surface is not edited. *)
Example press_normal_x :
  let r := press Sample.toy_neo Buffer.of_text 2 0%nat (py "x") (Sample.w_bridge (py "n")) in
  r.1 = Ok () ∧
  text (hview_of r.2 Sample.v1) = py "ab" ∧
  edits r.2 = [].
Proof. by vm_compute. Qed.

(** A chord that [keymap] cannot translate makes [press] fail before the key
    reaches the engine. *)
Example press_ctrl_up :
  (press Sample.toy_neo Buffer.of_text 2 0%nat (py "ctrl+up") (Sample.w_bridge (py "i"))).1
  = Raise TypeError.
Proof. by vm_compute. Qed.

Lemma press_replaces_text_iff_differs_witness :
  let w := Sample.w_bridge (py "i") in
  ∃ h e w',
    press Sample.toy_neo Buffer.of_text 2 0%nat (py "x") w = (Ok (), w') ∧
    attr w' 0%nat "buf" = Some (VBuf h) ∧
    vim w' = vim_press Sample.toy_neo (py "x") e ∧
    let old := text (hview_of w Sample.v1) in
    let new := Str.join [10] (buf_get Sample.toy_neo h (vim w')) in
    text (hview_of w' Sample.v1) = new ∧
    (∀ v, v ≠ Sample.v1 → text (hview_of w' v) = text (hview_of w v)) ∧
    edits w' = edits w ++
      (if decide (old = new) then []
       else [(Sample.v1, [Replace (Region_new 0 (Z.of_nat (length old))) new])]).
Proof.
  apply (press_replaces_text_iff_differs Sample.toy_neo Buffer.of_text 0 0%nat
           Sample.v1 (py "x") (py "x") (Sample.w_bridge (py "i"))).
  - apply w_bridge_bridge_of.
  - intros _. by vm_compute.
  - by vm_compute.
Defined.

(** *** The panel adapter on the sample world *)

(** What becomes of a panel that is open when [show] runs is the host's
    doing.  On a host that keeps its open panels, the panel [p0] stays open
    next to the new one. *)
Example show_on_keeping_host :
  let w' := (ActualPanel_show Sample.keep_panels 1%nat (py ":") Sample.w_panel).2 in
  attr Sample.w_panel 1%nat "panel" = Some (VView Sample.p0) ∧
  panels Sample.w_panel = [Sample.p0] ∧
  panels w' = [Sample.p0; View_new 100 100] ∧
  attr w' 1%nat "panel" = Some (VView (View_new 100 100)).
Proof. split_and!; by vm_compute. Qed.

(** On a host that puts the open panels away, only the new panel is open. *)
Example show_on_replacing_host :
  panels (ActualPanel_show Sample.replace_panels 1%nat (py ":") Sample.w_panel).2
  = [View_new 100 100].
Proof. by vm_compute. Qed.

(** * Further properties *)

(** ** Key translation *)

(** No key of one character is in the table. *)
Lemma KEYMAP_single_char (b : Z) : dict_get KEYMAP [b] [b] = [b].
Proof.
  unfold dict_get. replace (KEYMAP !! [b]) with (@None str); [done|].
  symmetry. apply not_elem_of_list_to_map. cbn.
  intros H. repeat (apply elem_of_cons in H as [H|H]; [discriminate|]).
  by apply elem_of_nil in H.
Qed.


(** X2: a chord of [ctrl] and one character with a code point from 63 to 95
    ([?], [@], the capital letters, [[] to [_]) is translated to one control
    character: its code point is below 32, or 127 for [ctrl+?]. *)
Theorem keymap_ctrl_control_character (b : Z) :
  63 ≤ b < 96 →
  keymap (py "ctrl+" ++ [b]) = Ok [(b - 64) `mod` 128] ∧
  (0 ≤ (b - 64) `mod` 128 < 32 ∨ (b - 64) `mod` 128 = 127).
Proof.
  intros Hb. split.
  - rewrite keymap_ctrl.
    + by rewrite (proj2 (Z.geb_le b 63)), (proj2 (Z.ltb_lt b 96)) by lia.
    + unfold plus_sign. rewrite list_elem_of_singleton. lia.
  - destruct (decide (b = 63)) as [->|]; [by right|]. left.
    rewrite Z.mod_small by lia. lia.
Qed.

Lemma keymap_ctrl_control_character_witness :
  63 ≤ 65 < 96 ∧ keymap (py "ctrl+A") = Ok [1].
Proof.
  split; [lia|]. apply (proj1 (keymap_ctrl_control_character 65 ltac:(lia))).
Defined.

(** X3: with a character outside that range, a lowercase letter or a digit
    say, the [ctrl] of the chord is dropped: the character itself is what
    the engine gets. *)
Theorem keymap_ctrl_dropped (b : Z) :
  b ≠ plus_sign → ¬ (63 ≤ b < 96) →
  keymap (py "ctrl+" ++ [b]) = Ok [b].
Proof.
  intros Hplus Hb. rewrite keymap_ctrl.
  - destruct (Z.geb_spec b 63), (Z.ltb_spec b 96); simpl;
      try lia; by rewrite KEYMAP_single_char.
  - rewrite list_elem_of_singleton. congruence.
Qed.

Lemma keymap_ctrl_dropped_witness :
  97 ≠ plus_sign ∧ ¬ (63 ≤ 97 < 96) ∧ keymap (py "ctrl+a") = Ok (py "a").
Proof.
  split_and!; [done|lia|].
  apply (keymap_ctrl_dropped 97); [done|lia].
Defined.

(** X4: the modifiers of any other chord are dropped: the part after the
    last [+] is looked up in the table, and passed on unchanged if it is not a
    named key. *)
Theorem keymap_drops_modifiers (mods base : str) :
  plus_sign ∉ base → mods ≠ py "ctrl" → mods ++ base ≠ [] →
  keymap (mods ++ plus_sign :: base) = Ok (dict_get KEYMAP base base).
Proof.
  intros Hbase Hmods Hne. unfold keymap, Str.contains.
  rewrite bool_decide_eq_true_2 by (apply elem_of_app; right; left).
  rewrite bool_decide_eq_true_2; last first.
  { intros H. destruct mods as [|c [|c' mods]], base; simplify_eq/=. }
  rewrite rsplit1_app by done. simpl.
  rewrite bool_decide_eq_false_2; [done|].
  intros [Heq _]%split_singleton. by rewrite Heq in Hmods.
Qed.

Lemma keymap_drops_modifiers_witness :
  keymap (py "ctrl+shift+up") = Ok (27 :: py "[A") ∧
  keymap (py "alt+x") = Ok (py "x").
Proof.
  split.
  - apply (keymap_drops_modifiers (py "ctrl+shift") (py "up")); [|done..].
    compute_done.
  - apply (keymap_drops_modifiers (py "alt") (py "x")); [|done..].
    compute_done.
Defined.

(** ** Visual selections *)

(** X5: outside block mode the resolver always emits exactly one region,
    whatever the mode string and the positions are. *)
Theorem visual_single_region (g : sublime.Geometry) (mode : str) (a b : Z * Z) :
  mode ≠ [22] → length (visual g mode a b) = 1%nat.
Proof.
  intros Hmode. destruct a as [sr sc], b as [er ec]. unfold visual.
  repeat case_bool_decide; try done; rewrite length_fmap; simpl;
    by repeat case_match.
Qed.

Lemma visual_single_region_witness :
  py "n" ≠ [22] ∧
  length (visual (Buffer.geometry [5; 3]) (py "n") (1, 2) (1, 2)) = 1%nat.
Proof.
  split; [done|].
  by apply (visual_single_region (Buffer.geometry [5; 3]) (py "n") (1, 2) (1, 2)).
Defined.

Lemma block_row_spec_length (g : sublime.Geometry) (left right r : Z) :
  (length (block_row_spec g left right r) ≤ 1)%nat.
Proof. unfold block_row_spec. case_bool_decide; simpl; lia. Qed.

Lemma bind_length_le {A B} (f : A → list B) (l : list A) :
  (∀ x, length (f x) ≤ 1)%nat → (length (l ≫= f) ≤ length l)%nat.
Proof.
  intros Hf. induction l as [|x l IH]; [done|].
  rewrite bind_cons, length_app. specialize (Hf x). simpl. lia.
Qed.

Lemma bind_length_eq {A B} (f : A → list B) (l : list A) :
  (∀ x, x ∈ l → length (f x) = 1%nat) → length (l ≫= f) = length l.
Proof.
  induction l as [|x l IH]; intros Hf; [done|].
  rewrite bind_cons, length_app, IH, Hf; [done|by left|].
  intros y Hy. apply Hf. by right.
Qed.

(** X6: block mode emits at most one region per row of the block, and
    exactly one per row when every row of the block reaches the left column
    of the block. *)
Theorem visual_block_region_count (g : sublime.Geometry) (a b : Z * Z) :
  let rows := Z.to_nat (Z.max a.1 b.1 - Z.min a.1 b.1 + 1) in
  (length (visual g [22%Z] a b) ≤ rows)%nat ∧
  ((∀ r, Z.min a.1 b.1 ≤ r ≤ Z.max a.1 b.1 → Z.min a.2 b.2 ≤ row_end g r) →
   length (visual g [22] a b) = rows).
Proof.
  destruct a as [sr sc], b as [er ec]. cbn [fst snd].
  assert (visual g [22] (sr, sc) (er, ec) =
          seqZ (Z.min sr er) (Z.max sr er - Z.min sr er + 1)
            ≫= block_row_spec g (Z.min sc ec) (Z.max sc ec + 1)) as ->.
  { unfold visual. simpl. rewrite visual_block_rows_spec. simpl.
    unfold range. do 2 f_equal. lia. }
  split.
  - etrans; [apply bind_length_le, block_row_spec_length|].
    by rewrite length_seqZ.
  - intros Hrows. rewrite bind_length_eq; [by rewrite length_seqZ|].
    intros r [Hr1 Hr2]%elem_of_seqZ. unfold block_row_spec.
    rewrite bool_decide_eq_false_2; [done|].
    specialize (Hrows r). lia.
Qed.

Lemma visual_block_region_count_witness :
  let g := Buffer.geometry [8; 3; 4] in
  (∀ r, 0 ≤ r ≤ 2 → 2 ≤ row_end g r) ∧
  length (visual g [22] (0, 2) (2, 5)) = 3%nat.
Proof.
  assert (∀ r, 0 ≤ r ≤ 2 → 2 ≤ row_end (Buffer.geometry [8; 3; 4]) r) as Hrows.
  { intros r Hr.
    assert (r = 0 ∨ r = 1 ∨ r = 2) as [->|[->| ->]] by lia; by vm_compute. }
  split; [done|].
  by apply (proj2 (visual_block_region_count (Buffer.geometry [8; 3; 4]) (0, 2) (2, 5))).
Defined.

(** X7: char mode takes in the characters at both ends: the region covers
    the offsets from the smaller of the two to one past the larger, in either
    direction. *)
Theorem visual_char_inclusive (g : sublime.Geometry) (anchor cursor : Z * Z) :
  let a := sublime.text_point g anchor.1 anchor.2 in
  let b := sublime.text_point g cursor.1 cursor.2 in
  extent <$> visual g (py "v") anchor cursor = [(Z.min a b, Z.max a b + 1)].
Proof.
  intros a b. rewrite visual_char. fold a b. simpl.
  unfold extent, sublime.begin, sublime.end_.
  destruct (a >? b) eqn:Hab; simpl; do 2 f_equal; lia.
Qed.

(** In the sample geometry a later row starts after the end of an earlier
    one. *)
Lemma row_start_lt (lens : list Z) (r1 r2 : nat) (l1 : Z) :
  Forall (λ l, 0 ≤ l) lens → lens !! r1 = Some l1 → (r1 < r2)%nat →
  Buffer.row_start lens r1 + l1 + 1 ≤ Buffer.row_start lens r2.
Proof.
  intros H. revert r1 r2. induction H as [|l ls Hl Hls IH]; intros r1 r2 Hr1 Hlt.
  - done.
  - destruct r2 as [|r2]; [lia|]. destruct r1 as [|r1]; simpl in *.
    + simplify_eq. pose proof (row_start_nonneg ls r2 Hls). lia.
    + specialize (IH r1 r2 Hr1). lia.
Qed.

(** X8: on a buffer, line mode covers whole rows in both directions: with
    the anchor and the cursor anywhere on two rows, the region covers the text
    from the start of the upper row to the end of the lower row. *)
Theorem visual_line_covers_rows (lens : list Z) (ra rc : nat) (la lc ca cc : Z) :
  Forall (λ l, 0 ≤ l) lens →
  lens !! ra = Some la → lens !! rc = Some lc →
  0 ≤ ca ≤ la → 0 ≤ cc ≤ lc →
  extent <$> visual (Buffer.geometry lens) (py "V")
                    (Z.of_nat ra, ca) (Z.of_nat rc, cc) =
    [(Buffer.row_start lens (Nat.min ra rc),
      Buffer.row_start lens (Nat.max ra rc) + default 0 (lens !! Nat.max ra rc))].
Proof.
  intros Hlens Ha Hc Hca Hcc. rewrite visual_line. simpl.
  unfold Buffer.text_point, Buffer.line. rewrite !Nat2Z.id.
  rewrite (row_of_text_point lens ra la ca), (row_of_text_point lens rc lc cc) by done.
  rewrite Ha, Hc. simpl.
  pose proof (row_start_nonneg lens ra Hlens).
  pose proof (row_start_nonneg lens rc Hlens).
  unfold extent, sublime.begin, sublime.end_.
  destruct (lt_eq_lt_dec ra rc) as [[Hlt| ->]|Hlt].
  - pose proof (row_start_lt lens ra rc la Hlens Ha Hlt).
    rewrite Nat.min_l, Nat.max_r, Hc by lia.
    destruct (Z.gtb_spec (Buffer.row_start lens ra + ca) (Buffer.row_start lens rc + cc));
      simpl; do 2 f_equal; lia.
  - rewrite Nat.min_id, Nat.max_id, Hc. simplify_eq.
    destruct (Z.gtb_spec (Buffer.row_start lens rc + ca) (Buffer.row_start lens rc + cc));
      simpl; do 2 f_equal; lia.
  - pose proof (row_start_lt lens rc ra lc Hlens Hc Hlt).
    rewrite Nat.min_r, Nat.max_l, Ha by lia.
    destruct (Z.gtb_spec (Buffer.row_start lens ra + ca) (Buffer.row_start lens rc + cc));
      simpl; do 2 f_equal; lia.
Qed.

Lemma visual_line_covers_rows_witness :
  extent <$> visual (Buffer.geometry [5; 3; 4]) (py "V") (2, 1) (1, 3) = [(6, 14)] ∧
  extent <$> visual (Buffer.geometry [5; 3; 4]) (py "V") (1, 3) (2, 1) = [(6, 14)].
Proof.
  split.
  - apply (visual_line_covers_rows [5; 3; 4] 2 1 4 3 1 3); try done.
    repeat constructor; lia.
  - apply (visual_line_covers_rows [5; 3; 4] 1 2 3 4 3 1); try done.
    repeat constructor; lia.
Defined.

(** ** The registry *)

Section RegistryMore.

Context {Vim : Type}.
Implicit Types (w : world Vim) (cls : class Vim) (view : View) (l : loc).

Lemma get_no_create cls view exact w r w' :
  get cls view false exact w = (r, w') → w' = w.
Proof.
  unfold get, view_id, gets, mbind, M_bind, mret, M_ret. simpl.
  destruct (_views w !! sublime.view_id view) as [l|]; simpl.
  - destruct exact; simpl; [|by intros [= _ <-]].
    unfold getattr. destruct (heap w !! l) as [o|]; [|by intros [= _ <-]].
    destruct (__dict__ o !! "view"); [|by intros [= _ <-]].
    by case_bool_decide; intros [= _ <-].
  - by intros [= _ <-].
Qed.

(** X9: a lookup without [create] is a pure query: whatever it returns or
    raises, and whatever the class is, the world is left as it was. *)
Theorem get_without_create_is_pure cls view exact w r w' :
  get cls view false exact w = (r, w') → w' = w.
Proof. apply get_no_create. Qed.

(** A lookup that finds an entry does not look at [create]. *)
Lemma get_hit cls view create exact w l :
  _views w !! sublime.view_id view = Some l →
  get cls view create exact w = get cls view false exact w.
Proof.
  intros H. unfold get, view_id, gets, mbind, M_bind, mret, M_ret. simpl.
  by rewrite H.
Qed.

(** A lookup that finds no entry and may create one, when [__init__]
    succeeds. *)
Lemma get_miss_run cls view exact w w2 :
  _views w !! sublime.view_id view = None →
  let l := fresh (dom (heap w)) in
  cls_init cls l view (set_heap <[l := Obj (cls_id cls) ∅]> w) = (Ok (), w2) →
  get cls view true exact w =
    (Ok (Some l), set__views <[sublime.view_id view := l]> w2).
Proof.
  intros Hmiss l Hinit.
  assert (construct cls view w = (Ok l, w2)) as Hconstruct.
  { unfold construct. erewrite bind_run by reflexivity. fold l.
    by erewrite bind_run by apply Hinit. }
  unfold get.
  erewrite bind_run by reflexivity.
  erewrite bind_run by reflexivity.
  rewrite Hmiss. rewrite bool_decide_eq_false_2 by (by intros [? ?]). simpl.
  erewrite bind_run; last first.
  { unfold try_except. by erewrite bind_run by apply Hconstruct. }
  reflexivity.
Qed.

(** X10: when the construction fails, the lookup prints the traceback and
    returns nothing, and it registers nothing: the registry is as the failed
    [__init__] left it. *)
Theorem get_construction_failure cls view exact w e w1 :
  _views w !! sublime.view_id view = None →
  construct cls view w = (Raise e, w1) →
  ∃ w', get cls view true exact w = (Ok None, w') ∧
        _views w' = _views w1 ∧
        heap w' = heap w1 ∧
        stderr w' = stderr w1 ++ [e].
Proof.
  intros Hmiss Hfail. unfold get.
  erewrite bind_run by reflexivity.
  erewrite bind_run by reflexivity.
  rewrite Hmiss. rewrite bool_decide_eq_false_2 by (by intros [? ?]). simpl.
  erewrite bind_run; last first.
  { unfold try_except. erewrite bind_raise by apply Hfail.
    unfold print_exc. erewrite bind_run by reflexivity. reflexivity. }
  by eexists.
Qed.

(** *** What [__init__] does *)

Lemma hview_of_set_heap w f v : hview_of (set_heap f w) v = hview_of w v.
Proof. done. Qed.

Lemma hview_of_set__views w f v : hview_of (set__views f w) v = hview_of w v.
Proof. done. Qed.

Lemma ActualVim_init_proxy l view w o :
  heap w !! l = Some o →
  truthy (default VNone (settings (hview_of w view) !! "actual_proxy")) = true →
  ActualVim_init l view w =
    (Ok (), set_heap <[l := Obj (__class__ o)
                         (<["last_sel" := VNone]> (<["view" := VView view]> (__dict__ o)))]> w).
Proof.
  intros Ho Hproxy. unfold ActualVim_init.
  erewrite bind_run by (by apply ViewMeta_init_run).
  erewrite bind_run by reflexivity.
  rewrite hview_of_set_heap, Hproxy. reflexivity.
Qed.

Lemma ActualVim_init_plain l view w o :
  heap w !! l = Some o →
  truthy (default VNone (settings (hview_of w view) !! "actual_proxy")) = false →
  ∃ w', ActualVim_init l view w = (Ok (), w') ∧
        _views w' = _views w ∧
        heap w' = <[l := Obj (__class__ o)
                     (<["buf" := VNone]>
                        (<["last_sel" := VNone]> (<["view" := VView view]> (__dict__ o))))]>
                    (heap w) ∧
        (∀ v, text (hview_of w' v) = text (hview_of w v)) ∧
        (∀ v, sel (hview_of w' v) = sel (hview_of w v)) ∧
        (∀ v, v ≠ view → hview_of w' v = hview_of w v) ∧
        settings (hview_of w' view) =
          <["inverse_caret_state" := VBool true]>
            (<["actual_mode" := VBool true]>
               (<["actual_intercept" := VBool true]> (settings (hview_of w view)))).
Proof.
  intros Ho Hproxy. unfold ActualVim_init.
  erewrite bind_run by (by apply ViewMeta_init_run).
  erewrite bind_run by reflexivity.
  rewrite hview_of_set_heap, Hproxy.
  erewrite bind_run by reflexivity.
  erewrite setattr_run; last first.
  { cbn. by rewrite lookup_insert_eq. }
  eexists. split; [done|]. split_and!.
  - done.
  - cbn. by rewrite insert_insert_eq.
  - intros v. rewrite hview_of_set_heap, !hview_of_update_hview.
    repeat case_decide; by simplify_eq/=.
  - intros v. rewrite hview_of_set_heap, !hview_of_update_hview.
    repeat case_decide; by simplify_eq/=.
  - intros v Hv. rewrite hview_of_set_heap, !hview_of_update_hview.
    repeat case_decide; by simplify_eq/=.
  - rewrite hview_of_set_heap, !hview_of_update_hview.
    repeat case_decide; by simplify_eq/=.
Qed.

(** The [__init__] of the two classes succeeds, leaves the registry alone
    and changes the heap at the new instance only. *)
Lemma source_init_heap gen cls l view w o :
  cls = ViewMeta gen ∨ cls = ActualVim gen →
  heap w !! l = Some o →
  ∃ w' d, cls_init cls l view w = (Ok (), w') ∧
          _views w' = _views w ∧
          heap w' = <[l := Obj (__class__ o) d]> (heap w).
Proof.
  intros [->| ->] Ho; simpl.
  - rewrite (ViewMeta_init_run _ _ _ _ Ho). by do 2 eexists.
  - destruct (truthy (default VNone (settings (hview_of w view) !! "actual_proxy")))
      eqn:Hproxy.
    + rewrite (ActualVim_init_proxy _ _ _ _ Ho Hproxy). by do 2 eexists.
    + destruct (ActualVim_init_plain _ _ _ _ Ho Hproxy) as (w' & -> & ? & ? & _).
      by do 2 eexists.
Qed.

(** X11: a lookup never takes anything away: every id that was registered
    is still registered to the same instance, every instance is still what it
    was, and a well-formed world stays well formed. *)
Theorem get_keeps_entries (gen : nat) cls view create exact w r w' :
  cls = ViewMeta gen ∨ cls = ActualVim gen →
  get cls view create exact w = (r, w') →
  (∀ vid l, _views w !! vid = Some l → _views w' !! vid = Some l) ∧
  (∀ l o, heap w !! l = Some o → heap w' !! l = Some o) ∧
  (wf w → wf w').
Proof.
  intros Hcls Hget.
  destruct (_views w !! sublime.view_id view) as [l0|] eqn:Hentry.
  { rewrite (get_hit _ _ _ _ _ _ Hentry) in Hget.
    by apply get_no_create in Hget as ->. }
  destruct create; [|by apply get_no_create in Hget as ->].
  set (l := fresh (dom (heap w))).
  assert (heap w !! l = None) as Hfresh by apply not_elem_of_dom, is_fresh.
  destruct (source_init_heap gen cls l view
              (set_heap <[l := Obj (cls_id cls) ∅]> w) (Obj (cls_id cls) ∅) Hcls)
    as (w2 & d & Hinit & Hviews & Hheap).
  { simpl. by rewrite lookup_insert_eq. }
  rewrite (get_miss_run _ _ _ _ _ Hentry Hinit) in Hget.
  injection Hget as _ <-. simpl in *.
  rewrite Hviews, Hheap, insert_insert_eq.
  assert (∀ l' o, heap w !! l' = Some o → <[l := Obj (cls_id cls) d]> (heap w) !! l' = Some o)
    as Hkeep.
  { intros l' o Ho. rewrite lookup_insert_ne; [done|congruence]. }
  split_and!; [|done|].
  - intros vid l' Hl'. rewrite lookup_insert_ne; [done|congruence].
  - intros Hwf vid l'. simpl. rewrite Hviews, Hheap, insert_insert_eq.
    destruct (decide (sublime.view_id view = vid)) as [<-|Hne].
    + rewrite lookup_insert_eq. intros [= <-]. fold l. by rewrite lookup_insert_eq.
    + rewrite lookup_insert_ne by done. intros Hl'.
      destruct (Hwf vid l' Hl') as [o Ho]. exists o. by apply Hkeep.
Qed.

(** *** Reloading again *)

Lemma reload_classes_body_frame cls item w r w' :
  reload_classes_body cls item w = (r, w') →
  views w' = views w ∧ vim w' = vim w ∧ edits w' = edits w ∧
  deferred w' = deferred w ∧ panels w' = panels w.
Proof.
  destruct item as [vid l].
  unfold reload_classes_body, __new__, get_dict, update_dict, modify, mbind, M_bind.
  simpl. repeat case_match; intros; by simplify_eq/=.
Qed.

Lemma reload_classes_loop_frame cls (items : list (Z * loc)) w r w' :
  for_each items (reload_classes_body cls) w = (r, w') →
  views w' = views w ∧ vim w' = vim w ∧ edits w' = edits w ∧
  deferred w' = deferred w ∧ panels w' = panels w.
Proof.
  revert w. induction items as [|item items IH]; intros w; simpl.
  - by intros [= _ <-].
  - unfold mbind, M_bind.
    destruct (reload_classes_body cls item w) as [[[]|e] w1] eqn:Hbody;
      apply reload_classes_body_frame in Hbody as (? & ? & ? & ? & ?).
    + intros (? & ? & ? & ? & ?)%IH. split_and!; congruence.
    + intros [= _ <-]. done.
Qed.

(** What the migration does to one entry whose instance is [o]. *)
Lemma reload_classes_entries cls w :
  wf w →
  ∃ w', reload_classes cls w = (Ok (), w') ∧
        wf w' ∧
        (views w' = views w ∧ vim w' = vim w ∧ edits w' = edits w ∧
         deferred w' = deferred w ∧ panels w' = panels w) ∧
        (∀ vid l, _views w !! vid = Some l →
           ∃ l', _views w' !! vid = Some l' ∧
                 (__class__ <$> heap w' !! l') = Some (cls_id cls) ∧
                 ∀ name, attr w' l' name = attr w l name).
Proof.
  intros Hwf. unfold reload_classes.
  erewrite bind_run by reflexivity.
  destruct (reload_classes_loop cls (map_to_list (_views w)) w)
    as (w' & Hrun & Hsub & Hother & Hitems).
  { apply NoDup_fst_map_to_list. }
  { intros vid l Hin%elem_of_map_to_list. by eapply Hwf. }
  exists w'. split; [done|]. split; [|split].
  - intros vid l' Hl'. destruct (_views w !! vid) as [l|] eqn:E.
    + apply elem_of_map_to_list in E.
      destruct (Hitems vid l E) as (l'' & o & _ & Hv & _ & Ho).
      rewrite Hv in Hl'. simplify_eq. by eexists.
    + rewrite Hother, E in Hl'; [done|].
      intros ((vid' & l) & -> & Hin%elem_of_map_to_list)%list_elem_of_fmap.
      simpl in E. congruence.
  - by eapply reload_classes_loop_frame.
  - intros vid l Hl. apply elem_of_map_to_list in Hl.
    destruct (Hitems vid l Hl) as (l' & o & Ho & Hv & _ & Ho').
    exists l'. split_and!; [done|by rewrite Ho'|].
    intros name. unfold attr. by rewrite Ho, Ho'.
Qed.

(** X14: the migration keeps the world in order: it stays well formed (so
    the classes can be reloaded again), every bridge is still a bridge for its
    view under its id, with its selection snapshot and its engine buffer, and
    neither the host's surfaces nor the engine nor the pending selection
    writes are touched. *)
Theorem reload_classes_keeps_bridges cls w :
  wf w →
  ∃ w', reload_classes cls w = (Ok (), w') ∧
        wf w' ∧
        (∀ vid l view, _views w !! vid = Some l → bridge_of w l view →
           ∃ l', _views w' !! vid = Some l' ∧ bridge_of w' l' view ∧
                 attr w' l' "last_sel" = attr w l "last_sel" ∧
                 attr w' l' "buf" = attr w l "buf") ∧
        views w' = views w ∧ vim w' = vim w ∧ deferred w' = deferred w.
Proof.
  intros Hwf.
  destruct (reload_classes_entries cls w Hwf)
    as (w' & Hrun & Hwf' & (Hv & Hvim & _ & Hd & _) & Hentries).
  exists w'. split_and!; try done.
  intros vid l view Hl (Hview & Hlast & Hbuf).
  destruct (Hentries vid l Hl) as (l' & Hl' & _ & Hattr).
  exists l'. split_and!; [done| |done..].
  unfold bridge_of. by rewrite !Hattr.
Qed.

(** X15: after the migration an exact lookup for the view of a registered
    bridge finds the migrated instance: the identity check passes, since the
    recorded view was carried over. *)
Theorem reload_classes_then_get cls cls' view create w l :
  wf w →
  _views w !! sublime.view_id view = Some l →
  attr w l "view" = Some (VView view) →
  ∃ w' l', reload_classes cls w = (Ok (), w') ∧
           get cls' view create true w' = (Ok (Some l'), w') ∧
           heap w !! l' = None ∧
           (__class__ <$> heap w' !! l') = Some (cls_id cls).
Proof.
  intros Hwf Hl Hview. unfold reload_classes.
  erewrite bind_run by reflexivity.
  destruct (reload_classes_loop cls (map_to_list (_views w)) w)
    as (w' & Hrun & Hsub & Hother & Hitems).
  { apply NoDup_fst_map_to_list. }
  { intros vid l0 Hin%elem_of_map_to_list. by eapply Hwf. }
  apply elem_of_map_to_list in Hl.
  destruct (Hitems _ l Hl) as (l' & o & Ho & Hv & Hfresh & Ho').
  exists w', l'. split_and!; [done| |done|by rewrite Ho'].
  rewrite (get_exact cls' view create w' l' (VView view) Hv).
  - by rewrite bool_decide_eq_false_2 by (by intros []).
  - unfold attr in *. by rewrite Ho in Hview; rewrite Ho'.
Qed.

End RegistryMore.

Lemma get_without_create_is_pure_witness :
  get (ActualVim 0) Sample.v1' false true Sample.w_stale = (Ok None, Sample.w_stale).
Proof.
  destruct (get (ActualVim 0) Sample.v1' false true Sample.w_stale) as [r w'] eqn:Hget.
  pose proof (get_without_create_is_pure _ _ _ _ _ _ Hget) as ->.
  revert Hget. vm_compute. by intros [= <-].
Defined.

Lemma get_construction_failure_witness :
  ∃ w', get Cases.Broken Sample.v1 true true Sample.w_empty = (Ok None, w') ∧
        _views w' = ∅ ∧ stderr w' = [TypeError].
Proof.
  destruct (get_construction_failure Cases.Broken Sample.v1 true Sample.w_empty
              TypeError
              (set_heap <[0%nat := Obj ("Broken"%string, 0%nat) ∅]> Sample.w_empty))
    as (w' & Hget & Hviews & _ & Herr); [by vm_compute..|].
  exists w'. by rewrite Hviews, Herr.
Defined.

Lemma get_keeps_entries_witness :
  ∃ r w', get (ActualVim 0) Sample.v7 true true Sample.w_stale = (r, w') ∧
          _views w' !! 1 = Some 0%nat.
Proof.
  destruct (get (ActualVim 0) Sample.v7 true true Sample.w_stale) as [r w'] eqn:Hget.
  exists r, w'. split; [done|].
  apply (get_keeps_entries 0 (ActualVim 0) Sample.v7 true true Sample.w_stale r w'
           (or_intror eq_refl) Hget).
  by vm_compute.
Defined.

Lemma w_stale_wf : wf Sample.w_stale.
Proof.
  intros vid l. unfold Sample.w_stale. simpl.
  intros [<- <-]%lookup_singleton_Some. by rewrite lookup_singleton_eq.
Qed.

Lemma reload_classes_keeps_bridges_witness :
  ∃ w' l', reload_classes (ActualVim 1) Sample.w_stale = (Ok (), w') ∧
           wf w' ∧
           _views w' !! 1 = Some l' ∧ bridge_of w' l' Sample.v1.
Proof.
  destruct (reload_classes_keeps_bridges (ActualVim 1) Sample.w_stale w_stale_wf)
    as (w' & Hrun & Hwf & Hbridges & _).
  destruct (Hbridges 1 0%nat Sample.v1) as (l' & Hl' & Hbridge & _).
  - by vm_compute.
  - split_and!; [by vm_compute|by eexists; vm_compute|left; by vm_compute].
  - by exists w', l'.
Defined.

Lemma reload_classes_then_get_witness :
  ∃ w' l', reload_classes (ActualVim 1) Sample.w_stale = (Ok (), w') ∧
           get (ActualVim 1) Sample.v1 false true w' = (Ok (Some l'), w') ∧
           heap Sample.w_stale !! l' = None ∧
           (__class__ <$> heap w' !! l') = Some ("ActualVim"%string, 1%nat).
Proof.
  apply (reload_classes_then_get (ActualVim 1) (ActualVim 1) Sample.v1 false
           Sample.w_stale 0%nat w_stale_wf); by vm_compute.
Defined.

(** ** The lookup as a whole *)

Section RegistryLookup.

Context {Vim : Type}.
Implicit Types (w : world Vim) (cls : class Vim) (view : View) (l : loc).

(** A lookup that finds no entry and may create one: the address returned
    was not in use, now holds an instance of the class whose [view] is the
    surface asked for, and is what the registry holds under the id; no other
    id of the registry is touched. *)
Lemma get_create_instance (gen : nat) cls view exact w :
  cls = ViewMeta gen ∨ cls = ActualVim gen →
  _views w !! sublime.view_id view = None →
  ∃ l w1 o,
    get cls view true exact w = (Ok (Some l), w1) ∧
    heap w !! l = None ∧
    _views w1 = <[sublime.view_id view := l]> (_views w) ∧
    heap w1 !! l = Some o ∧
    __class__ o = cls_id cls ∧
    __dict__ o !! "view" = Some (VView view).
Proof.
  intros Hcls Hmiss.
  set (l := fresh (dom (heap w))).
  set (w0 := set_heap <[l := Obj (cls_id cls) ∅]> w).
  assert (heap w0 !! l = Some (Obj (cls_id cls) ∅)) as Hblank.
  { subst w0. simpl. by rewrite lookup_insert_eq. }
  destruct (source_init_heap gen cls l view w0 _ Hcls Hblank)
    as (w2 & d & Hinit & Hviews & Hheap).
  destruct (source_classes_record_view gen cls Hcls l view w0)
    as (w2' & Hinit' & _ & Hview); [by eexists|].
  rewrite Hinit in Hinit'. injection Hinit' as <-.
  exists l, (set__views <[sublime.view_id view := l]> w2), (Obj (cls_id cls) d).
  split_and!.
  - by apply get_miss_run.
  - apply not_elem_of_dom, is_fresh.
  - simpl. by rewrite Hviews.
  - simpl. by rewrite Hheap, lookup_insert_eq.
  - done.
  - unfold attr in Hview. by rewrite Hheap, lookup_insert_eq in Hview.
Qed.

(** A lookup that finds an entry whose instance records the surface asked
    for returns that instance and changes nothing. *)
Lemma get_matching cls view create exact w l :
  _views w !! sublime.view_id view = Some l →
  attr w l "view" = Some (VView view) →
  get cls view create exact w = (Ok (Some l), w).
Proof.
  intros H Hview. destruct exact.
  - rewrite (get_exact _ _ _ _ _ _ H Hview).
    by rewrite bool_decide_eq_false_2 by (by intros []).
  - by apply get_inexact.
Qed.

(** Two surfaces with different ids, neither registered: a bridge is made
    for each, at different addresses, and both are registered afterwards. *)
Lemma get_create_distinct (gen : nat) cls view view' exact exact' w :
  cls = ViewMeta gen ∨ cls = ActualVim gen →
  sublime.view_id view ≠ sublime.view_id view' →
  _views w !! sublime.view_id view = None →
  _views w !! sublime.view_id view' = None →
  ∃ l l' w1 w2,
    get cls view true exact w = (Ok (Some l), w1) ∧
    get cls view' true exact' w1 = (Ok (Some l'), w2) ∧
    l ≠ l' ∧
    _views w2 !! sublime.view_id view = Some l ∧
    _views w2 !! sublime.view_id view' = Some l'.
Proof.
  intros Hcls Hne Hmiss Hmiss'.
  destruct (get_create_instance gen cls view exact w Hcls Hmiss)
    as (l & w1 & o & Hget & _ & Hviews & Ho & _).
  destruct (get_create_instance gen cls view' exact' w1 Hcls)
    as (l' & w2 & o' & Hget' & Hfresh' & Hviews' & _).
  { by rewrite Hviews, lookup_insert_ne. }
  exists l, l', w1, w2. split_and!; [done..| | |].
  - intros <-. by rewrite Ho in Hfresh'.
  - rewrite Hviews', lookup_insert_ne by done. by rewrite Hviews, lookup_insert_eq.
  - by rewrite Hviews', lookup_insert_eq.
Qed.

(** C6: a lookup without [create] of an id that is not registered returns
    nothing and changes nothing.  A lookup with [create] for a live surface
    (its id is not registered, or is registered to an instance that records
    this surface) returns an instance: the address returned holds an object
    whose [view] is the surface asked for and is what the registry holds under
    the id afterwards; when the id was not registered the address was not in
    use before, the object is an instance of the class, and the registry
    changes under this id only; when the id was registered the stored address
    is returned and nothing changes; and a second lookup returns the same
    address and changes nothing.  When the entry under the id records another
    surface than the one asked for, an exact lookup returns nothing and leaves
    the entry where it is. *)
Theorem registry_lookup (gen : nat) cls view w :
  cls = ViewMeta gen ∨ cls = ActualVim gen →
  (∀ exact, _views w !! sublime.view_id view = None →
            get cls view false exact w = (Ok None, w)) ∧
  (∀ exact,
     _views w !! sublime.view_id view = None ∨
     (∃ l, _views w !! sublime.view_id view = Some l ∧
           attr w l "view" = Some (VView view)) →
     ∃ l w1 o,
       get cls view true exact w = (Ok (Some l), w1) ∧
       _views w1 !! sublime.view_id view = Some l ∧
       heap w1 !! l = Some o ∧
       __dict__ o !! "view" = Some (VView view) ∧
       (_views w !! sublime.view_id view = None →
          heap w !! l = None ∧
          __class__ o = cls_id cls ∧
          _views w1 = <[sublime.view_id view := l]> (_views w)) ∧
       (∀ l0, _views w !! sublime.view_id view = Some l0 → l = l0 ∧ w1 = w) ∧
       get cls view true exact w1 = (Ok (Some l), w1)) ∧
  (∀ create l x,
     _views w !! sublime.view_id view = Some l →
     attr w l "view" = Some x → x ≠ VView view →
     get cls view create true w = (Ok None, w)).
Proof.
  intros Hcls. split_and!.
  - intros exact. apply get_absent.
  - intros exact [Hmiss|(l & Hl & Hview)].
    + destruct (get_create_instance gen cls view exact w Hcls Hmiss)
        as (l & w1 & o & Hget & Hfresh & Hviews & Ho & Hclass & Hview).
      assert (_views w1 !! sublime.view_id view = Some l) as Hl.
      { by rewrite Hviews, lookup_insert_eq. }
      exists l, w1, o. split_and!; [done..| |].
      * intros l0. by rewrite Hmiss.
      * apply get_matching; [done|]. unfold attr. by rewrite Ho.
    + destruct (attr_heap w l "view") as [o Ho]; [by eexists|].
      exists l, w, o. split_and!.
      * by apply get_matching.
      * done.
      * done.
      * unfold attr in Hview. by rewrite Ho in Hview.
      * intros Hmiss. by rewrite Hl in Hmiss.
      * intros l0. rewrite Hl. by intros [= <-].
      * by apply get_matching.
  - intros create l x H Hx Hne. rewrite (get_exact _ _ _ _ _ _ H Hx).
    by rewrite bool_decide_eq_true_2.
Qed.

End RegistryLookup.

(** On the empty world the first lookup for [v1] makes an [ActualVim] at an
    address that was not in use and registers it under id 1. *)
Lemma registry_lookup_witness :
  get (ActualVim 0) Sample.v1 false true Sample.w_empty = (Ok None, Sample.w_empty) ∧
  (∃ l w1 o,
     get (ActualVim 0) Sample.v1 true true Sample.w_empty = (Ok (Some l), w1) ∧
     _views w1 !! 1 = Some l ∧
     heap w1 !! l = Some o ∧
     __dict__ o !! "view" = Some (VView Sample.v1) ∧
     heap Sample.w_empty !! l = None ∧
     __class__ o = ("ActualVim"%string, 0%nat) ∧
     get (ActualVim 0) Sample.v1 true true w1 = (Ok (Some l), w1)) ∧
  get (ActualVim 0) Sample.v1' false true Sample.w_stale = (Ok None, Sample.w_stale).
Proof.
  destruct (registry_lookup 0 (ActualVim 0) Sample.v1 Sample.w_empty
              (or_intror eq_refl)) as (Habsent & Hcreate & _).
  destruct (registry_lookup 0 (ActualVim 0) Sample.v1' Sample.w_stale
              (or_intror eq_refl)) as (_ & _ & Hstale).
  split_and!.
  - apply Habsent. by vm_compute.
  - destruct (Hcreate true) as (l & w1 & o & Hget & Hl & Ho & Hview & Hnew & _ & Hagain).
    { left. by vm_compute. }
    destruct Hnew as (Hfresh & Hclass & _); [by vm_compute|].
    by exists l, w1, o.
  - apply (Hstale false 0%nat (VView Sample.v1)); by vm_compute.
Defined.

(** The two lookups run: the bridge of [v1] is at address 0, the bridge of
    [v7] at address 1. *)
Example get_two_surfaces :
  let r1 := get (ActualVim 0) Sample.v1 true true Sample.w_empty in
  let r2 := get (ActualVim 0) Sample.v7 true true r1.2 in
  r1.1 = Ok (Some 0%nat) ∧ r2.1 = Ok (Some 1%nat) ∧
  _views r2.2 = {[ 1 := 0%nat; 7 := 1%nat ]}.
Proof. by vm_compute. Qed.

(** ** The bridge *)

Section BridgeMore.

Context {Vim : Type} (neo : Neo Vim) (geom : str → sublime.Geometry).
Implicit Types (w : world Vim) (view : View) (l self : loc).

(** Writing an attribute the value it has changes nothing. *)
Lemma set_heap_same w l o name x :
  heap w !! l = Some o → __dict__ o !! name = Some x →
  set_heap <[l := Obj (__class__ o) (<[name := x]> (__dict__ o))]> w = w.
Proof.
  intros Ho Hx. destruct w, o. unfold set_heap. simpl in *.
  by rewrite (insert_id _ _ _ Hx), (insert_id _ _ _ Ho).
Qed.

(** The selection snapshot of a surface: what [copy_sel] returns. *)
Lemma sel_changed_run self view w o last :
  heap w !! self = Some o →
  __dict__ o !! "view" = Some (VView view) →
  __dict__ o !! "last_sel" = Some last →
  let snap := (λ r, (sublime.a r, sublime.b r)) <$> sel (hview_of w view) in
  sel_changed self w =
    (Ok (bool_decide (VSel snap ≠ last)),
     set_heap <[self := Obj (__class__ o) (<["last_sel" := VSel snap]> (__dict__ o))]> w).
Proof.
  intros Ho Hview Hlast snap. unfold sel_changed.
  erewrite bind_run by (apply getattr_run; unfold attr; by rewrite Ho).
  erewrite bind_run by reflexivity.
  erewrite bind_run by (apply getattr_run; unfold attr; by rewrite Ho).
  by erewrite bind_run by (by apply setattr_run).
Qed.

(** X16: [sel_changed] reports a change exactly when the selection of the
    surface differs from the snapshot it remembers, and remembers the new
    snapshot; called again at once it reports no change and changes
    nothing. *)
Theorem sel_changed_twice self view w last :
  attr w self "view" = Some (VView view) →
  attr w self "last_sel" = Some last →
  let snap := (λ r, (sublime.a r, sublime.b r)) <$> sel (hview_of w view) in
  ∃ w1, sel_changed self w = (Ok (bool_decide (VSel snap ≠ last)), w1) ∧
        attr w1 self "last_sel" = Some (VSel snap) ∧
        sel_changed self w1 = (Ok false, w1).
Proof.
  intros Hview Hlast snap.
  destruct (attr_heap w self "view") as [o Ho]; [by eexists|].
  unfold attr in Hview, Hlast. rewrite Ho in Hview, Hlast. simpl in *.
  set (o1 := Obj (__class__ o) (<["last_sel" := VSel snap]> (__dict__ o))).
  set (w1 := set_heap <[self := o1]> w).
  assert (heap w1 !! self = Some o1) as Ho1 by (simpl; by rewrite lookup_insert_eq).
  exists w1. split; [by apply (sel_changed_run self view w o last)|].
  split.
  - unfold attr. rewrite Ho1. simpl. by rewrite lookup_insert_eq.
  - rewrite (sel_changed_run self view w1 o1 (VSel snap) Ho1).
    + rewrite bool_decide_eq_false_2 by (intros H; by apply H).
      f_equal. apply set_heap_same; [done|]. simpl. by rewrite lookup_insert_eq.
    + simpl. by rewrite lookup_insert_ne.
    + simpl. by rewrite lookup_insert_eq.
Qed.

(** X17: when the selection of the surface is the one the bridge remembers,
    [sel_to_vim] on an activated bridge only gives the engine buffer the
    focus: no selection is pushed to the engine, no selection write is
    deferred and the caret is left alone. *)
Theorem sel_to_vim_unchanged depth self view h w :
  attr w self "buf" = Some (VBuf h) →
  attr w self "view" = Some (VView view) →
  attr w self "last_sel" =
    Some (VSel ((λ r, (sublime.a r, sublime.b r)) <$> sel (hview_of w view))) →
  sel_to_vim neo geom (S depth) self w = (Ok (), set_vim (buf_activate neo h) w).
Proof.
  intros Hbuf Hview Hlast. unfold sel_to_vim, sel_to_vim_with.
  erewrite bind_run by (by apply activate_active).
  set (w1 := set_vim _ w).
  destruct (attr_heap w self "view") as [o Ho]; [by eexists|].
  unfold attr in Hview, Hlast. rewrite Ho in Hview, Hlast. simpl in *.
  erewrite bind_run by (by apply (sel_changed_run self view w1 o)).
  rewrite bool_decide_eq_false_2 by (intros H; by apply H).
  unfold mret, M_ret. f_equal. by apply set_heap_same.
Qed.

(** X18: when the surface has no selection region at all, and the bridge
    remembers another snapshot, [sel_to_vim] fails with [IndexError] on
    [sel()[0]]: nothing is pushed to the engine and no selection write is
    deferred, but the empty snapshot is remembered. *)
Theorem sel_to_vim_no_selection depth self view h w last :
  attr w self "buf" = Some (VBuf h) →
  attr w self "view" = Some (VView view) →
  attr w self "last_sel" = Some last →
  last ≠ VSel [] →
  sel (hview_of w view) = [] →
  ∃ w', sel_to_vim neo geom (S depth) self w = (Raise IndexError, w') ∧
        vim w' = buf_activate neo h (vim w) ∧
        deferred w' = deferred w ∧
        attr w' self "last_sel" = Some (VSel []).
Proof.
  intros Hbuf Hview Hlast Hne Hsel. unfold sel_to_vim, sel_to_vim_with.
  erewrite bind_run by (by apply activate_active).
  set (w1 := set_vim _ w).
  destruct (attr_heap w self "view") as [o Ho]; [by eexists|].
  unfold attr in Hview, Hlast. rewrite Ho in Hview, Hlast. simpl in *.
  erewrite bind_run by (by apply (sel_changed_run self view w1 o last)).
  change (hview_of w1 view) with (hview_of w view). rewrite Hsel. simpl.
  rewrite bool_decide_eq_true_2 by congruence.
  set (w2 := set_heap _ w1).
  assert (attr w2 self "view" = Some (VView view)) as Hview2.
  { unfold attr. simpl. rewrite lookup_insert_eq. simpl.
    by rewrite lookup_insert_ne. }
  erewrite bind_run by (by apply self_view_run).
  erewrite bind_run by reflexivity.
  change (hview_of w2 view) with (hview_of w view). rewrite Hsel.
  exists w2. split_and!; [done..|].
  unfold attr. simpl. rewrite lookup_insert_eq. simpl. by rewrite lookup_insert_eq.
Qed.

(** X19: activation is idempotent: once it has succeeded, activating again
    only gives the engine buffer the focus; no second buffer is made and
    nothing is pushed or deferred. *)
Theorem activate_twice depth depth' self view w :
  bridge_of w self view →
  (attr w self "buf" = Some VNone → sel (hview_of w view) ≠ []) →
  ∃ h w1, activate neo geom (S (S depth)) self w = (Ok (), w1) ∧
          attr w1 self "buf" = Some (VBuf h) ∧
          activate neo geom (S depth') self w1 =
            (Ok (), set_vim (buf_activate neo h) w1).
Proof.
  intros Hbridge Hsel.
  destruct (activate_ok neo geom depth self view w Hbridge Hsel)
    as (h & w1 & Hact & _ & Hbuf).
  exists h, w1. split_and!; [done..|]. by apply activate_active.
Qed.

End BridgeMore.

Lemma sel_changed_twice_witness :
  ∃ w1, sel_changed 0%nat (Sample.w_bridge (py "n")) = (Ok true, w1) ∧
        attr w1 0%nat "last_sel" = Some (VSel [(2, 2)]) ∧
        sel_changed 0%nat w1 = (Ok false, w1).
Proof.
  apply (sel_changed_twice 0%nat Sample.v1 (Sample.w_bridge (py "n")) VNone);
    by vm_compute.
Defined.

Lemma sel_to_vim_unchanged_witness :
  sel_to_vim Sample.toy_neo Buffer.of_text 1 0%nat (Cases.w_active (py "n"))
  = (Ok (), set_vim (buf_activate Sample.toy_neo 0%nat) (Cases.w_active (py "n"))).
Proof.
  apply (sel_to_vim_unchanged Sample.toy_neo Buffer.of_text 0 0%nat Sample.v1 0%nat);
    by vm_compute.
Defined.

Lemma sel_to_vim_no_selection_witness :
  ∃ w', sel_to_vim Sample.toy_neo Buffer.of_text 1 0%nat Cases.w_no_sel
          = (Raise IndexError, w') ∧
        vim w' = buf_activate Sample.toy_neo 0%nat (vim Cases.w_no_sel) ∧
        deferred w' = deferred Cases.w_no_sel ∧
        attr w' 0%nat "last_sel" = Some (VSel []).
Proof.
  apply (sel_to_vim_no_selection Sample.toy_neo Buffer.of_text 0 0%nat Sample.v1 0%nat
           Cases.w_no_sel (VSel [(2, 2)])); by vm_compute.
Defined.

Lemma activate_twice_witness :
  ∃ h w1, activate Sample.toy_neo Buffer.of_text 2 0%nat (Sample.w_bridge (py "n"))
            = (Ok (), w1) ∧
          attr w1 0%nat "buf" = Some (VBuf h) ∧
          activate Sample.toy_neo Buffer.of_text 1 0%nat w1 =
            (Ok (), set_vim (buf_activate Sample.toy_neo h) w1).
Proof.
  apply (activate_twice Sample.toy_neo Buffer.of_text 0 0 0%nat Sample.v1
           (Sample.w_bridge (py "n"))).
  - apply w_bridge_bridge_of.
  - intros _. by vm_compute.
Defined.

(** ** The bridge and the engine *)

(** Joining what [split] gave restores the string. *)
Lemma join_cons_head (sep : str) (c : Z) (hd : str) (rest : list str) :
  Str.join sep ((c :: hd) :: rest) = c :: Str.join sep (hd :: rest).
Proof. by destruct rest. Qed.

Lemma join_split (sep : Z) (t : str) : Str.join [sep] (Str.split sep t) = t.
Proof.
  induction t as [|c t IH]; simpl; [done|].
  case_bool_decide as Hc.
  - subst. destruct (Str.split sep t) as [|p rest] eqn:E.
    + by destruct (split_nonempty sep t).
    + simpl in *. by rewrite IH.
  - destruct (Str.split sep t) as [|hd rest] eqn:E.
    + by destruct (split_nonempty sep t).
    + by rewrite join_cons_head, IH.
Qed.

Section BridgeEngine.

Context {Vim : Type} (neo : Neo Vim) (geom : str → sublime.Geometry).
Implicit Types (w : world Vim) (view : View) (l self : loc).

(** [sel_to_vim] keeps what the engine's selection calls keep. *)
Lemma sel_to_vim_with_inv (P : Vim → Prop) (act : loc → M Vim unit) self view w :
  (∀ a b e, P e → P (vim_select neo a b e)) →
  (∃ w1, act self w = (Ok (), w1) ∧ stable w w1 ∧ P (vim w1)) →
  attr w self "view" = Some (VView view) →
  is_Some (attr w self "last_sel") →
  sel (hview_of w view) ≠ [] →
  ∃ w', sel_to_vim_with neo geom act self w = (Ok (), w') ∧ stable w w' ∧ P (vim w').
Proof.
  intros HP (w1 & Hact & Hst1 & HP1) Hview Hlast Hsel. unfold sel_to_vim_with.
  erewrite bind_run by apply Hact.
  pose proof Hst1 as (_ & _ & Hs1 & Hv1 & Hl1 & _).
  destruct (sel_changed_ok self view w1) as (changed & w2 & Hch & Hst2 & Hvim2);
    [by rewrite Hv1|by apply Hl1|].
  erewrite bind_run by apply Hch.
  assert (stable w w2) as Hst by (by eapply stable_trans).
  destruct changed; [|exists w2; by rewrite Hvim2].
  pose proof Hst as (_ & _ & Hs & Hv & _).
  erewrite bind_run by (apply self_view_run; by rewrite Hv).
  erewrite bind_run by reflexivity. rewrite Hs.
  destruct (sel (hview_of w view)) as [|r rest]; [done|].
  do 2 erewrite bind_run by reflexivity.
  set (g := geom _).
  assert (∃ w3, (if bool_decide (sublime.b r = sublime.a r)
                 then modify (set_vim (vim_select neo None (sublime.rowcol g (sublime.b r))))
                 else modify (set_vim (vim_select neo
                        (Some (sublime.rowcol g (sublime.a r)))
                        (sublime.rowcol g (sublime.b r))))) w2 = (Ok (), w3) ∧
               stable w2 w3 ∧ P (vim w3)) as (w3 & Hsel3 & Hst3 & HP3).
  { destruct (bool_decide _); eexists;
      (split_and!; [done|apply stable_set_vim|simpl; rewrite Hvim2; by apply HP]). }
  erewrite bind_run by apply Hsel3.
  pose proof Hst3 as (_ & _ & _ & Hv3 & _).
  destruct (sel_from_vim_ok neo geom self view w3) as (w4 & Hrun4 & Hst4 & Hvim4);
    [by rewrite Hv3, Hv|].
  erewrite bind_run by apply Hrun4.
  pose proof Hst4 as (_ & _ & _ & Hv4 & _).
  destruct (update_caret_ok neo self view w4) as (w5 & Hrun5 & Hst5 & Hvim5);
    [by rewrite Hv4, Hv3, Hv|].
  exists w5. split_and!; [done| |by rewrite Hvim5, Hvim4].
  eauto using stable_trans.
Qed.

(** X20: the first activation mirrors the surface into the engine: on an
    engine whose new buffer holds the lines it is given, and whose selection
    and focus calls leave buffers alone, the buffer of the bridge holds the
    lines of the text of the surface afterwards, so that joining them gives
    that text back. *)
Theorem activate_mirrors_text depth self view w :
  (∀ e h e' ls, buf_new neo e = (h, e') →
                buf_get neo h (buf_set neo h ls e') = ls) →
  (∀ h a b e, buf_get neo h (vim_select neo a b e) = buf_get neo h e) →
  (∀ h h' e, buf_get neo h (buf_activate neo h' e) = buf_get neo h e) →
  attr w self "view" = Some (VView view) →
  is_Some (attr w self "last_sel") →
  attr w self "buf" = Some VNone →
  sel (hview_of w view) ≠ [] →
  ∃ h w', activate neo geom (S (S depth)) self w = (Ok (), w') ∧
          attr w' self "buf" = Some (VBuf h) ∧
          buf_get neo h (vim w') = Str.split 10 (text (hview_of w view)) ∧
          Str.join [10] (buf_get neo h (vim w')) = text (hview_of w view).
Proof.
  intros Hset Hselect Hfocus Hview Hlast Hbuf Hsel.
  destruct (attr_heap w self "buf") as [o Ho]; [by eexists|].
  cbn [activate].
  erewrite bind_run by (by apply getattr_run).
  rewrite bool_decide_eq_true_2 by done.
  destruct (buf_new neo (vim w)) as [h e] eqn:Enew.
  set (w1 := set_vim (λ _, e) w).
  set (w2 := set_heap <[self := Obj (__class__ o) (<["buf" := VBuf h]> (__dict__ o))]> w1).
  assert (stable w w2) as Hst2.
  { eapply stable_trans; [apply (stable_set_vim w (λ _, e))|].
    apply stable_setattr; [done|]. right. split; [done|].
    intros h'. unfold attr in Hbuf. rewrite Ho in Hbuf. simpl in Hbuf.
    by rewrite Hbuf. }
  assert (attr w2 self "buf" = Some (VBuf h)) as Hbuf2.
  { subst w2. rewrite attr_set_heap, decide_True by done. simpl.
    by rewrite lookup_insert_eq. }
  pose proof Hst2 as (_ & Ht2 & Hs2 & Hv2 & Hl2 & _).
  set (t := text (hview_of w2 view)).
  set (lines := Str.split 10
         (drop (Z.to_nat (sublime.begin (Region_new 0 (Z.of_nat (length t)))))
            (take (Z.to_nat (sublime.end_ (Region_new 0 (Z.of_nat (length t))))) t))).
  assert (lines = Str.split 10 (text (hview_of w view))) as Hlines.
  { subst lines. pose proof (substr_everything t) as Hsub. cbv zeta in Hsub.
    rewrite Hsub. subst t. by rewrite Ht2. }
  set (w3 := set_vim (buf_set neo h lines) w2).
  set (P := λ e : Vim, buf_get neo h e = lines).
  assert (P (vim w3)) as HP3 by (by apply (Hset (vim w) h e lines)).
  destruct (sel_to_vim_with_inv P (activate neo geom (S depth)) self view w3)
    as (w4 & Hrun4 & Hst4 & HP4).
  { intros a b e' He'. unfold P. by rewrite Hselect. }
  { eexists. split_and!; [by apply activate_active|apply stable_set_vim|].
    unfold P. simpl. by rewrite Hfocus. }
  { change (attr w2 self "view" = Some (VView view)). by rewrite Hv2. }
  { change (is_Some (attr w2 self "last_sel")). by apply Hl2. }
  { change (sel (hview_of w2 view) ≠ []). by rewrite Hs2. }
  pose proof Hst4 as (_ & _ & _ & _ & _ & Hb4).
  assert (buf_get neo h (vim (set_vim (buf_activate neo h) w4)) = lines) as Hfinal.
  { simpl. by rewrite Hfocus. }
  exists h. eexists. split_and!.
  - erewrite bind_run; last first.
    { erewrite bind_run; last by (unfold vim_buf_new; rewrite Enew).
      erewrite bind_run by (by apply setattr_run). fold w1 w2.
      erewrite bind_run by (apply self_view_run; by rewrite Hv2).
      do 2 erewrite bind_run by reflexivity.
      erewrite bind_run by (by erewrite bind_run by (by apply getattr_run)).
      erewrite bind_run by reflexivity.
      apply Hrun4. }
    erewrite bind_run; [done|].
    erewrite bind_run by (apply getattr_run; by apply Hb4). done.
  - by apply Hb4.
  - by rewrite Hfinal.
  - by rewrite Hfinal, Hlines, join_split.
Qed.

End BridgeEngine.

(** The toy engine keeps the lines it is given. *)
Lemma toy_buf_set_get (e : Sample.toy) (h : nat) (e' : Sample.toy) (ls : list str) :
  buf_new Sample.toy_neo e = (h, e') →
  buf_get Sample.toy_neo h (buf_set Sample.toy_neo h ls e') = ls.
Proof.
  destruct e as [bufs cur mode s]. simpl. intros [= <- <-]. simpl.
  by rewrite list_lookup_insert_eq by (rewrite length_app; simpl; lia).
Qed.

Lemma activate_mirrors_text_witness :
  ∃ h w', activate Sample.toy_neo Buffer.of_text 2 0%nat (Sample.w_bridge (py "n"))
            = (Ok (), w') ∧
          attr w' 0%nat "buf" = Some (VBuf h) ∧
          buf_get Sample.toy_neo h (vim w') = [py "ab"] ∧
          Str.join [10] (buf_get Sample.toy_neo h (vim w')) = py "ab".
Proof.
  apply (activate_mirrors_text Sample.toy_neo Buffer.of_text 0 0%nat Sample.v1
           (Sample.w_bridge (py "n"))).
  - apply toy_buf_set_get.
  - done.
  - done.
  - by vm_compute.
  - exists VNone. by vm_compute.
  - by vm_compute.
  - by vm_compute.
Defined.

(** ** From the registry to the keys *)

Section BridgeLife.

Context {Vim : Type} (neo : Neo Vim) (geom : str → sublime.Geometry).
Implicit Types (w : world Vim) (view : View) (l self : loc).

(** X12: a lookup that creates the bridge of a surface that is no proxy
    returns an instance that is ready for use: it records the view, has no
    snapshot and no engine buffer yet, the three settings of the surface are
    switched on, no text or selection is touched, and if the surface has a
    selection the bridge can be activated at once. *)
Theorem get_makes_ready_bridge (gen depth : nat) view exact w :
  _views w !! sublime.view_id view = None →
  truthy (default VNone (settings (hview_of w view) !! "actual_proxy")) = false →
  ∃ l w', get (ActualVim gen) view true exact w = (Ok (Some l), w') ∧
          bridge_of w' l view ∧
          attr w' l "last_sel" = Some VNone ∧
          attr w' l "buf" = Some VNone ∧
          settings (hview_of w' view) !! "actual_intercept" = Some (VBool true) ∧
          settings (hview_of w' view) !! "actual_mode" = Some (VBool true) ∧
          settings (hview_of w' view) !! "inverse_caret_state" = Some (VBool true) ∧
          (∀ v, text (hview_of w' v) = text (hview_of w v)) ∧
          (∀ v, sel (hview_of w' v) = sel (hview_of w v)) ∧
          (sel (hview_of w view) ≠ [] →
           ∃ h w'', activate neo geom (S (S depth)) l w' = (Ok (), w'') ∧
                    attr w'' l "buf" = Some (VBuf h)).
Proof.
  intros Hmiss Hproxy.
  set (l := fresh (dom (heap w))).
  set (w0 := set_heap <[l := Obj (cls_id (ActualVim (Vim := Vim) gen)) ∅]> w).
  destruct (ActualVim_init_plain l view w0 (Obj (cls_id (ActualVim (Vim := Vim) gen)) ∅))
    as (w2 & Hinit & Hviews & Hheap & Htext & Hsel & _ & Hsettings).
  { simpl. by rewrite lookup_insert_eq. }
  { exact Hproxy. }
  exists l, (set__views <[sublime.view_id view := l]> w2).
  assert (∀ name, attr (set__views <[sublime.view_id view := l]> w2) l name =
                  (<["buf" := VNone]>
                     (<["last_sel" := VNone]>
                        (<["view" := VView view]> (∅ : gmap string value)))) !! name)
    as Hattr.
  { intros name. unfold attr. simpl. by rewrite Hheap, lookup_insert_eq. }
  assert (bridge_of (set__views <[sublime.view_id view := l]> w2) l view) as Hbridge.
  { unfold bridge_of. rewrite !Hattr. split_and!; [done|by eexists|by left]. }
  split_and!.
  - by apply get_miss_run.
  - done.
  - by rewrite Hattr.
  - by rewrite Hattr.
  - rewrite hview_of_set__views, Hsettings. by simplify_map_eq.
  - rewrite hview_of_set__views, Hsettings. by simplify_map_eq.
  - rewrite hview_of_set__views, Hsettings. by simplify_map_eq.
  - intros v. by rewrite hview_of_set__views, Htext.
  - intros v. by rewrite hview_of_set__views, Hsel.
  - intros Hne.
    destruct (activate_ok neo geom depth l view _ Hbridge) as (h & w'' & ? & _ & ?).
    { intros _. by rewrite hview_of_set__views, Hsel. }
    by exists h, w''.
Qed.

(** X13: the bridge made for a proxy surface has no [buf] attribute, since
    [__init__] returns before it sets one; activating it or pressing a key on
    it raises [AttributeError] and changes nothing. *)
Theorem proxy_bridge_cannot_activate (gen depth : nat) view exact key w :
  _views w !! sublime.view_id view = None →
  truthy (default VNone (settings (hview_of w view) !! "actual_proxy")) = true →
  ∃ l w', get (ActualVim gen) view true exact w = (Ok (Some l), w') ∧
          attr w' l "view" = Some (VView view) ∧
          attr w' l "buf" = None ∧
          views w' = views w ∧
          activate neo geom (S depth) l w' = (Raise AttributeError, w') ∧
          press neo geom (S depth) l key w' = (Raise AttributeError, w').
Proof.
  intros Hmiss Hproxy.
  set (l := fresh (dom (heap w))).
  set (w0 := set_heap <[l := Obj (cls_id (ActualVim (Vim := Vim) gen)) ∅]> w).
  assert (heap w0 !! l = Some (Obj (cls_id (ActualVim (Vim := Vim) gen)) ∅)) as Ho
    by (simpl; by rewrite lookup_insert_eq).
  pose proof (ActualVim_init_proxy l view w0 _ Ho Hproxy) as Hinit.
  eexists l, _. split; [by apply get_miss_run|].
  set (w' := set__views _ _).
  assert (∀ name, attr w' l name =
                  (<["last_sel" := VNone]>
                     (<["view" := VView view]> (∅ : gmap string value))) !! name)
    as Hattr.
  { intros name. unfold attr. simpl. by rewrite lookup_insert_eq. }
  assert (getattr l "buf" w' = (Raise AttributeError, w')) as Hget.
  { unfold getattr. simpl. rewrite lookup_insert_eq. simpl. done. }
  assert (activate neo geom (S depth) l w' = (Raise AttributeError, w')) as Hact.
  { cbn [activate]. by erewrite bind_raise by apply Hget. }
  split_and!.
  - by rewrite Hattr.
  - by rewrite Hattr.
  - done.
  - done.
  - unfold press. by erewrite bind_raise by apply Hact.
Qed.

(** *** The end of [press] *)

Lemma sel_from_vim_run self view w :
  attr w self "view" = Some (VView view) →
  sel_from_vim neo geom self w =
    (Ok (), set_deferred (λ q, q ++
              [(self, visual (geom (text (hview_of w view))) (vim_mode neo (vim w))
                        (vim_sel neo (vim w)).1 (vim_sel neo (vim w)).2)]) w).
Proof.
  intros Hview. unfold sel_from_vim.
  do 2 erewrite bind_run by reflexivity.
  erewrite bind_run by (by apply self_view_run).
  by erewrite bind_run by reflexivity.
Qed.

Lemma update_caret_run self view w :
  attr w self "view" = Some (VView view) →
  update_caret neo self w =
    (Ok (), update_hview view
              (λ h, HView (text h) (sel h)
                      (<["inverse_caret_state" :=
                           VBool (negb (bool_decide
                             (vim_mode neo (vim w) ∈ INSERT_MODES neo ++ VISUAL_MODES neo)))]>
                         (settings h))) w).
Proof.
  intros Hview. unfold update_caret.
  erewrite bind_run by reflexivity.
  by erewrite bind_run by (by apply self_view_run).
Qed.

(** [press] up to the text synchronisation. *)
Lemma press_tail depth self view key k w :
  bridge_of w self view →
  (attr w self "buf" = Some VNone → sel (hview_of w view) ≠ []) →
  keymap key = Ok k →
  ∃ w3, attr w3 self "view" = Some (VView view) ∧
        (∀ v, sel (hview_of w3 v) = sel (hview_of w v)) ∧
        press neo geom (S (S depth)) self key w =
          (sel_from_vim neo geom self ≫= λ _, update_caret neo self) w3.
Proof.
  intros Hbridge Hsel Hkey.
  destruct (activate_ok neo geom depth self view w Hbridge Hsel)
    as (h & w1 & Hact & Hst1 & Hbuf1).
  destruct Hbridge as (Hview & _).
  pose proof Hst1 as (_ & _ & Hs1 & Hv1 & _).
  set (w2 := set_vim (vim_press neo k) w1).
  assert (attr w2 self "view" = Some (VView view)) as Hview2.
  { change (attr w1 self "view" = Some (VView view)). by rewrite Hv1. }
  set (new := Str.join [10] (buf_get neo h (vim w2))).
  set (size := Z.of_nat (length (text (hview_of w2 view)))).
  set (current := drop (Z.to_nat (sublime.begin (Region_new 0 size)))
                    (take (Z.to_nat (sublime.end_ (Region_new 0 size)))
                       (text (hview_of w2 view)))).
  assert (∃ w3,
    (if bool_decide (current ≠ new)
     then Edit_with view [Replace (Region_new 0 size) new]
     else mret ()) w2 = (Ok (), w3) ∧
    heap w3 = heap w2 ∧
    (∀ v, sel (hview_of w3 v) = sel (hview_of w2 v)))
    as (w3 & Hsync & Hheap3 & Hsel3).
  { case_bool_decide.
    - eexists. split; [done|]. split; [done|].
      intros v. rewrite hview_of_set_edits, hview_of_update_hview.
      by case_decide; subst.
    - by exists w2. }
  exists w3. split_and!.
  - unfold attr. by rewrite Hheap3.
  - intros v. rewrite Hsel3. change (sel (hview_of w1 v) = sel (hview_of w v)).
    apply Hs1.
  - unfold press.
    erewrite bind_run by apply Hact.
    erewrite bind_run by (by apply getattr_run).
    rewrite bool_decide_eq_false_2 by done.
    rewrite Hkey.
    do 2 erewrite bind_run by reflexivity. fold w2.
    erewrite bind_run by (by erewrite bind_run by (by apply getattr_run)).
    erewrite bind_run by reflexivity. fold new.
    erewrite bind_run by (by apply (self_view_run self view)).
    do 2 erewrite bind_run by reflexivity.
    cbv zeta. fold size current.
    by erewrite bind_run by apply Hsync.
Qed.

(** X21: after [press] the caret setting of the surface tells the mode of
    the engine: [inverse_caret_state] is true exactly when the mode the engine
    is in after the key is neither an insert mode nor a visual mode. *)
Theorem press_sets_caret depth self view key k w :
  bridge_of w self view →
  (attr w self "buf" = Some VNone → sel (hview_of w view) ≠ []) →
  keymap key = Ok k →
  ∃ w', press neo geom (S (S depth)) self key w = (Ok (), w') ∧
        settings (hview_of w' view) !! "inverse_caret_state" =
          Some (VBool (negb (bool_decide
            (vim_mode neo (vim w') ∈ INSERT_MODES neo ++ VISUAL_MODES neo)))).
Proof.
  intros Hbridge Hsel Hkey.
  destruct (press_tail depth self view key k w Hbridge Hsel Hkey)
    as (w3 & Hview3 & _ & ->).
  erewrite bind_run by (by apply sel_from_vim_run).
  rewrite (update_caret_run self view) by done.
  eexists. split; [done|].
  rewrite hview_of_update_hview, decide_True by done. simpl.
  by rewrite lookup_insert_eq.
Qed.


End BridgeLife.

Lemma get_makes_ready_bridge_witness :
  ∃ l w', get (ActualVim 0) Sample.v1 true true Sample.w_empty = (Ok (Some l), w') ∧
          bridge_of w' l Sample.v1 ∧
          settings (hview_of w' Sample.v1) !! "actual_mode" = Some (VBool true).
Proof.
  destruct (get_makes_ready_bridge Sample.toy_neo Buffer.of_text 0 0 Sample.v1 true
              Sample.w_empty) as (l & w' & Hget & Hbridge & _ & _ & _ & Hmode & _);
    [by vm_compute..|].
  by exists l, w'.
Defined.

Lemma proxy_bridge_cannot_activate_witness :
  ∃ l w', get (ActualVim 0) Sample.v1 true true Cases.w_proxy = (Ok (Some l), w') ∧
          attr w' l "buf" = None ∧
          press Sample.toy_neo Buffer.of_text 1 l (py "x") w' = (Raise AttributeError, w').
Proof.
  destruct (proxy_bridge_cannot_activate Sample.toy_neo Buffer.of_text 0 0 Sample.v1
              true (py "x") Cases.w_proxy)
    as (l & w' & Hget & _ & Hbuf & _ & _ & Hpress); [by vm_compute..|].
  by exists l, w'.
Defined.

Lemma press_sets_caret_witness :
  ∃ w', press Sample.toy_neo Buffer.of_text 2 0%nat (py "escape") (Sample.w_bridge (py "i"))
          = (Ok (), w') ∧
        settings (hview_of w' Sample.v1) !! "inverse_caret_state" =
          Some (VBool (negb (bool_decide
            (vim_mode Sample.toy_neo (vim w')
               ∈ INSERT_MODES Sample.toy_neo ++ VISUAL_MODES Sample.toy_neo)))).
Proof.
  apply (press_sets_caret Sample.toy_neo Buffer.of_text 0 0%nat Sample.v1
           (py "escape") [27] (Sample.w_bridge (py "i"))).
  - apply w_bridge_bridge_of.
  - intros _. by vm_compute.
  - by vm_compute.
Defined.

(** After [ESC] in insert mode the toy engine is in normal mode and the
    caret is wide. *)
Example press_escape_caret :
  settings (hview_of
    (press Sample.toy_neo Buffer.of_text 2 0%nat (py "escape") (Sample.w_bridge (py "i"))).2
    Sample.v1) !! "inverse_caret_state" = Some (VBool true).
Proof. by vm_compute. Qed.


(** X25: a key that [keymap] cannot translate makes [press] fail with the
    exception of [keymap] right after the activation: the world is the one
    the activation left, so the engine is sent nothing for the key, the host
    keeps its texts and selections and no edit transaction is made. *)
Theorem press_fails_on_untranslatable_key {Vim : Type} (neo : Neo Vim)
    (geom : str → sublime.Geometry) (depth : nat) (self : loc) (view : View)
    (key : str) (e : exn) (w : world Vim) :
  bridge_of w self view →
  (attr w self "buf" = Some VNone → sel (hview_of w view) ≠ []) →
  keymap key = Raise e →
  ∃ w', activate neo geom (S (S depth)) self w = (Ok (), w') ∧
        press neo geom (S (S depth)) self key w = (Raise e, w') ∧
        edits w' = edits w ∧
        (∀ v, text (hview_of w' v) = text (hview_of w v)) ∧
        (∀ v, sel (hview_of w' v) = sel (hview_of w v)).
Proof.
  intros Hbridge Hsel Hkey.
  destruct (activate_ok neo geom depth self view w Hbridge Hsel)
    as (h & w1 & Hact & (He & Ht & Hs & _) & Hbuf1).
  exists w1. split_and!; [done| |done..].
  unfold press.
  erewrite bind_run by apply Hact.
  erewrite bind_run by (by apply getattr_run).
  rewrite bool_decide_eq_false_2 by done.
  by rewrite Hkey.
Qed.

Lemma press_fails_on_untranslatable_key_witness :
  ∃ w', press Sample.toy_neo Buffer.of_text 2 0%nat (py "ctrl+up")
          (Sample.w_bridge (py "i")) = (Raise TypeError, w') ∧
        edits w' = [] ∧
        text (hview_of w' Sample.v1) = py "ab".
Proof.
  destruct (press_fails_on_untranslatable_key Sample.toy_neo Buffer.of_text 0 0%nat
              Sample.v1 (py "ctrl+up") TypeError (Sample.w_bridge (py "i")))
    as (w' & _ & Hpress & He & Ht & _).
  - apply w_bridge_bridge_of.
  - intros _. by vm_compute.
  - by vm_compute.
  - exists w'. split_and!; [done|by rewrite He|by rewrite Ht].
Defined.

(** ** Closing *)

Section Closing.

Context {Vim : Type} (neo : Neo Vim) (geom : str → sublime.Geometry).
Context (buf_close : nat → Vim → Vim).
Implicit Types (w : world Vim) (view : View) (l self : loc).

(** X23: [close] on a bridge that was never activated does nothing; on an
    activated bridge it has the engine close the buffer and does nothing
    else: the bridge stays in the registry and keeps the handle of the closed
    buffer, so a later lookup still returns it and a later activation gives
    the closed buffer the focus instead of making a new one. *)
Theorem close_keeps_bridge (cls : class Vim) (depth : nat) self view create w :
  attr w self "view" = Some (VView view) →
  _views w !! sublime.view_id view = Some self →
  (attr w self "buf" = Some VNone → ActualVim_close buf_close self w = (Ok (), w)) ∧
  (∀ h, attr w self "buf" = Some (VBuf h) →
     let w' := set_vim (buf_close h) w in
     ActualVim_close buf_close self w = (Ok (), w') ∧
     get cls view create true w' = (Ok (Some self), w') ∧
     activate neo geom (S depth) self w' = (Ok (), set_vim (buf_activate neo h) w')).
Proof.
  intros Hview Hentry. split.
  - intros Hbuf. unfold ActualVim_close.
    erewrite bind_run by (by apply getattr_run).
    by rewrite bool_decide_eq_false_2 by (intros H; by apply H).
  - intros h Hbuf w'. split_and!.
    + unfold ActualVim_close.
      erewrite bind_run by (by apply getattr_run).
      rewrite bool_decide_eq_true_2 by done.
      by erewrite bind_run by (by erewrite bind_run by (by apply getattr_run)).
    + rewrite (get_exact cls view create w' self (VView view)) by done.
      by rewrite bool_decide_eq_false_2 by (intros H; by apply H).
    + by apply activate_active.
Qed.

(** [show] up to its failing last statement. *)
Lemma ActualPanel_show_state open_panel self view char w :
  attr w self "view" = Some (VView view) →
  let p := View_new (Z.of_nat (next_panel w)) (next_panel w) in
  ∃ w1, ActualPanel_show open_panel self char w = (Raise AttributeError, w1) ∧
        panels w1 = open_panel (panels w) p ∧
        attr w1 self "panel" = Some (VView p).
Proof.
  intros Hview p. unfold ActualPanel_show.
  destruct (attr_heap w self "view") as [o Ho]; [by eexists|].
  erewrite bind_run by (by apply self_view_run).
  erewrite bind_run by reflexivity.
  erewrite bind_run by (by apply setattr_run).
  fold p. set (w1 := set_heap _ _).
  assert (attr w1 self "panel" = Some (VView p)) as Hpanel.
  { subst w1. rewrite attr_set_heap, decide_True by done. simpl.
    by rewrite lookup_insert_eq. }
  assert (attr w1 self "view" = Some (VView view)) as Hview1.
  { subst w1. rewrite attr_set_heap, decide_True by done. simpl.
    rewrite lookup_insert_ne by done. unfold attr in Hview.
    by rewrite Ho in Hview. }
  erewrite bind_run by (by erewrite bind_run by (by apply getattr_run)).
  erewrite bind_run by reflexivity.
  erewrite bind_run by (by apply (self_view_run self view)).
  do 2 erewrite bind_run by reflexivity.
  set (w2 := update_hview _ _ _).
  exists w2. split; [|done].
  destruct (getattr self "actual" w2) as [[x|e] w3] eqn:Hget.
  - assert (w3 = w2) as ->.
    { unfold getattr in Hget. destruct (heap w2 !! self); [|by simplify_eq].
      destruct (_ !! "actual"); by simplify_eq. }
    by erewrite bind_run by done.
  - unfold getattr in Hget.
    destruct (heap w2 !! self) as [o2|] eqn:Ho2.
    + destruct (__dict__ o2 !! "actual") eqn:Hactual; simplify_eq.
      erewrite bind_raise; [done|]. unfold getattr. by rewrite Ho2, Hactual.
    + subst w2 w1. simpl in Ho2. by rewrite lookup_insert_eq in Ho2.
Qed.

(** X24: [close] after [show] closes the panel that [show] opened and no
    other one, and the adapter goes on recording the closed panel. *)
Theorem show_then_close open_panel self view char w :
  attr w self "view" = Some (VView view) →
  let p := View_new (Z.of_nat (next_panel w)) (next_panel w) in
  ∃ r w1 w2,
    ActualPanel_show open_panel self char w = (r, w1) ∧
    ActualPanel_close self w1 = (Ok (), w2) ∧
    panels w2 = filter (λ q, q ≠ p) (open_panel (panels w) p) ∧
    attr w2 self "panel" = Some (VView p).
Proof.
  intros Hview p.
  destruct (ActualPanel_show_state open_panel self view char w Hview)
    as (w1 & Hshow & Hpanels & Hpanel).
  exists (Raise AttributeError), w1. eexists. split; [done|]. split.
  - unfold ActualPanel_close.
    erewrite bind_run by (by apply getattr_run).
    simpl. by erewrite bind_run by reflexivity.
  - split; [|done]. simpl. by rewrite Hpanels.
Qed.

End Closing.

Lemma close_keeps_bridge_witness :
  let w := Cases.w_active (py "n") in
  let w' := set_vim (Cases.toy_close 0%nat) w in
  ActualVim_close Cases.toy_close 0%nat w = (Ok (), w') ∧
  get (ActualVim 0) Sample.v1 false true w' = (Ok (Some 0%nat), w') ∧
  activate Sample.toy_neo Buffer.of_text 1 0%nat w' =
    (Ok (), set_vim (buf_activate Sample.toy_neo 0%nat) w').
Proof.
  apply (proj2 (close_keeps_bridge Sample.toy_neo Buffer.of_text Cases.toy_close
                  (ActualVim 0) 0 0%nat Sample.v1 false (Cases.w_active (py "n"))
                  ltac:(by vm_compute) ltac:(by vm_compute)) 0%nat).
  by vm_compute.
Defined.

Lemma show_then_close_witness :
  ∃ r w1 w2,
    ActualPanel_show Sample.keep_panels 1%nat (py ":") Sample.w_panel = (r, w1) ∧
    ActualPanel_close 1%nat w1 = (Ok (), w2) ∧
    panels w2 = [Sample.p0] ∧
    attr w2 1%nat "panel" = Some (VView (View_new 100 100)).
Proof.
  destruct (show_then_close Sample.keep_panels 1%nat Sample.v1 (py ":") Sample.w_panel)
    as (r & w1 & w2 & Hshow & Hclose & Hpanels & Hpanel); [by vm_compute|].
  exists r, w1, w2. split_and!; [done..| |done].
  rewrite Hpanels. by vm_compute.
Defined.
